(** * kimi-writer: the conversation-state engine of the agent loop

    A shallow embedding of [kimi-writer.py]: the streaming response
    accumulator, the reconstruction of the assistant message, the tool
    dispatcher and the agent loop with its three exception handlers.

    Python values are modelled as follows.
    - [str] is [string]; [None]-or-string attributes are [option string],
      and Python truthiness of such a value is [truthy].
    - A message dictionary of the history is the record [Turn], one optional
      field per key the program ever writes.
    - [hasattr(x, "f")] is an [option] on field [f].
    - Exceptions are the type [exn] with the three classes the handlers of
      [main] tell apart; a call that may raise returns [res].
    - The collaborators the file imports ([estimate_token_count],
      [compress_context_impl], the tool map, the streaming client and
      [json.loads]) are the fields of the record [Env]. *)

From Stdlib Require Import ZArith Lia.
From stdpp Require Import base option list strings gmap.

Local Open Scope string_scope.
Local Open Scope Z_scope.

(** ** Constants *)

Definition MAX_ITERATIONS : nat := 300.
Definition TOKEN_LIMIT : Z := 200000.
Definition COMPRESSION_THRESHOLD : Z := 180000.
Definition MODEL_NAME : string := "kimi-k2-thinking".
Definition BACKUP_INTERVAL : nat := 50.

(** ** Exceptions *)

(** [PyException] stands for every subclass of Python's [Exception];
    [KeyboardInterrupt] and [SystemExit] derive from [BaseException] only,
    so an [except Exception] clause lets them through. *)
Inductive exn : Type :=
  | PyException (msg : string)
  | KeyboardInterrupt
  | SystemExit (code : Z).

Inductive res (A : Type) : Type :=
  | Ok (a : A)
  | Raise (e : exn).
Arguments Ok {A} a.
Arguments Raise {A} e.

Definition is_Exception (e : exn) : bool :=
  match e with PyException _ => true | _ => false end.

(** ** Streamed events *)

Record FunctionDelta := {
  fd_name : option string;
  fd_arguments : option string
}.

Record ToolCallDelta := {
  tcd_index : Z;
  tcd_id : option string;
  tcd_function : option FunctionDelta
}.

Record Delta := {
  d_role : option string;
  d_reasoning_content : option string;
  d_content : option string;
  d_tool_calls : option (list ToolCallDelta)
}.

Record Choice := {
  delta : Delta;
  finish_reason : option string
}.

Record Chunk := { choices : list Choice }.

(** Truthiness of a value that is [None] or a [str]. *)
Definition truthy (o : option string) : bool :=
  match o with
  | Some s => negb (String.eqb s EmptyString)
  | None => false
  end.

(** ** The streaming accumulator (lines 292-380) *)

(** One entry of [tool_calls_data]. The constant ["type": "function"] is
    left out. *)
Record Slot := {
  tc_id : option string;
  tc_name : string;
  tc_arguments : string;
  chars_received : Z
}.

Definition empty_slot : Slot :=
  {| tc_id := None; tc_name := EmptyString; tc_arguments := EmptyString;
     chars_received := 0 |}.

Record Accum := {
  reasoning_content : string;
  content_text : string;
  tool_calls_data : list Slot;
  role : option string;
  last_finish_reason : option string
}.

Definition initial_accum : Accum :=
  {| reasoning_content := EmptyString; content_text := EmptyString;
     tool_calls_data := []; role := None; last_finish_reason := None |}.

(** [while len(tool_calls_data) <= tc_delta.index: append(placeholder)]:
    the list grows to [index + 1] entries when it is shorter, and is left
    alone otherwise (in particular for a negative index). *)
Definition extend_slots (data : list Slot) (index : Z) : list Slot :=
  data ++ replicate (Z.to_nat (index + 1 - Z.of_nat (length data))) empty_slot.

(** Python's [l[i]]: a negative index counts from the end, an index out of
    range raises [IndexError]. The result is the position read. *)
Definition py_index {A} (l : list A) (i : Z) : option nat :=
  let n := Z.of_nat (length l) in
  if 0 <=? i then (if i <? n then Some (Z.to_nat i) else None)
  else if - n <=? i then Some (Z.to_nat (n + i)) else None.

(** Lines 367-374, on the slot [tc] the delta addresses. *)
Definition update_slot (tc : Slot) (d : ToolCallDelta) : Slot :=
  let tc1 :=
    if truthy (tcd_id d)
    then {| tc_id := tcd_id d; tc_name := tc_name tc;
            tc_arguments := tc_arguments tc;
            chars_received := chars_received tc |}
    else tc in
  match tcd_function d with
  | None => tc1
  | Some f =>
      let tc2 :=
        if truthy (fd_name f)
        then {| tc_id := tc_id tc1; tc_name := default EmptyString (fd_name f);
                tc_arguments := tc_arguments tc1;
                chars_received := chars_received tc1 |}
        else tc1 in
      if truthy (fd_arguments f)
      then {| tc_id := tc_id tc2; tc_name := tc_name tc2;
              tc_arguments :=
                tc_arguments tc2 +:+ default EmptyString (fd_arguments f);
              chars_received :=
                chars_received tc2
                + Z.of_nat (String.length
                              (default EmptyString (fd_arguments f))) |}
      else tc2
  end.

Definition index_error : exn :=
  PyException "IndexError: list index out of range".

(** Lines 344-380 for one [tc_delta] (console narration left out). *)
Definition process_tc_delta (data : list Slot) (d : ToolCallDelta)
  : res (list Slot) :=
  let data1 := extend_slots data (tcd_index d) in
  match py_index data1 (tcd_index d) with
  | None => Raise index_error
  | Some k =>
      match data1 !! k with
      | Some tc => Ok (<[k := update_slot tc d]> data1)
      | None => Raise index_error
      end
  end.

Fixpoint process_tc_deltas (data : list Slot) (ds : list ToolCallDelta)
  : res (list Slot) :=
  match ds with
  | [] => Ok data
  | d :: ds' =>
      match process_tc_delta data d with
      | Ok data' => process_tc_deltas data' ds'
      | Raise e => Raise e
      end
  end.

(** Lines 306-380 for one chunk. *)
Definition process_chunk (st : Accum) (c : Chunk) : res Accum :=
  match choices c with
  | [] => Ok st
  | ch :: _ =>
      let d := delta ch in
      let role1 := if truthy (d_role d) then d_role d else role st in
      let reasoning1 :=
        if truthy (d_reasoning_content d)
        then reasoning_content st
             +:+ default EmptyString (d_reasoning_content d)
        else reasoning_content st in
      let content1 :=
        if truthy (d_content d)
        then content_text st +:+ default EmptyString (d_content d)
        else content_text st in
      match process_tc_deltas (tool_calls_data st)
                              (default [] (d_tool_calls d)) with
      | Ok data' =>
          Ok {| reasoning_content := reasoning1; content_text := content1;
                tool_calls_data := data'; role := role1;
                last_finish_reason := finish_reason ch |}
      | Raise e => Raise e
      end
  end.

Fixpoint accumulate (st : Accum) (chunks : list Chunk) : res Accum :=
  match chunks with
  | [] => Ok st
  | c :: rest =>
      match process_chunk st c with
      | Ok st' => accumulate st' rest
      | Raise e => Raise e
      end
  end.

(** ** The reconstructed message (lines 392-417) *)

Record ToolCall := {
  call_id : string;
  call_name : string;
  call_arguments : string
}.

Record ReconstructedMessage := {
  rm_role : string;
  rm_content : option string;
  rm_reasoning_content : option string;
  rm_tool_calls : option (list ToolCall)
}.

(** [if tc["id"]]: only a slot with a truthy id becomes a tool call. *)
Definition slot_to_call (tc : Slot) : option ToolCall :=
  if truthy (tc_id tc)
  then Some {| call_id := default EmptyString (tc_id tc);
               call_name := tc_name tc;
               call_arguments := tc_arguments tc |}
  else None.

Definition nonempty_or_None (s : string) : option string :=
  if String.eqb s EmptyString then None else Some s.

Definition reconstruct (st : Accum) : ReconstructedMessage :=
  {| rm_role :=
       if truthy (role st) then default EmptyString (role st)
       else "assistant";
     rm_content := nonempty_or_None (content_text st);
     rm_reasoning_content := nonempty_or_None (reasoning_content st);
     rm_tool_calls :=
       match tool_calls_data st with
       | [] => None
       | data => Some (omap slot_to_call data)
       end |}.

(** The tool invocations a message carries: [None] and [[]] both mean
    none (this is what [if not message.tool_calls] tests). *)
Definition invocations (m : ReconstructedMessage) : list ToolCall :=
  default [] (rm_tool_calls m).

(** ** The message store *)

(** One dictionary of [messages]. A key the dictionary does not carry is
    [None]. *)
Record Turn := {
  t_role : string;
  t_content : option string;
  t_reasoning_content : option string;
  t_tool_calls : option (list ToolCall);
  t_tool_call_id : option string;
  t_name : option string
}.

Definition plain_turn (r content : string) : Turn :=
  {| t_role := r; t_content := Some content; t_reasoning_content := None;
     t_tool_calls := None; t_tool_call_id := None; t_name := None |}.

(** [convert_message_for_api] on the reconstructed message, which has no
    [tool_call_id] and no [name] attribute. *)
Definition convert_message_for_api (msg : ReconstructedMessage) : Turn :=
  {| t_role := rm_role msg;
     t_content := if truthy (rm_content msg) then rm_content msg else None;
     t_reasoning_content :=
       if truthy (rm_reasoning_content msg)
       then rm_reasoning_content msg else None;
     t_tool_calls :=
       match rm_tool_calls msg with
       | Some (tc :: tcs) => Some (tc :: tcs)
       | _ => None
       end;
     t_tool_call_id := None;
     t_name := None |}.

(** Lines 478-483. *)
Definition tool_message (tool_call_id func_name result : string) : Turn :=
  {| t_role := "tool"; t_content := Some result;
     t_reasoning_content := None; t_tool_calls := None;
     t_tool_call_id := Some tool_call_id; t_name := Some func_name |}.

(** Lines 200-214. *)
Definition initial_messages (system_prompt user_prompt : string)
    (is_recovery : bool) : list Turn :=
  [ plain_turn "system" system_prompt;
    plain_turn "user"
      (if is_recovery
       then "[RECOVERED CONTEXT]

" +:+ user_prompt +:+ "

[END RECOVERED CONTEXT]

Please continue the work from where we left off."
       else user_prompt) ].

(** ** The collaborators *)

(** What [json.loads] returns. *)
#[warnings="-register-all"]
Inductive json : Type :=
  | JNull
  | JBool (b : bool)
  | JNumber (repr : string)
  | JString (s : string)
  | JArray (items : list json)
  | JObject (members : list (string * json)).

(** The dictionary [compress_context_impl] returns; every key is optional
    for the caller. *)
Record CompressionResult := {
  compressed_messages : option (list Turn);
  cr_message : option string;
  tokens_saved : option Z;
  summary_file : option string
}.

(** The five places that call the compressor. *)
Inductive site : Type :=
  | AtThreshold   (* line 244 *)
  | AtBackup      (* line 268 *)
  | AtToolCall    (* line 456 *)
  | AtInterrupt   (* line 490 *)
  | AtCap.        (* line 518 *)

(** One run of the streaming call of an iteration: the chunks delivered,
    and the exception that ended the stream if one did. A call to
    [create] that raises is a run with no chunk. *)
Record StreamRun := {
  sr_chunks : list Chunk;
  sr_failure : option exn
}.

(** A tool takes the keyword arguments; it is told the iteration and the
    position of the call in the message, since a tool is not a pure
    function of its arguments. *)
Definition Tool : Type := nat -> nat -> list (string * json) -> res string.

Record Env := {
  (** iteration, 0 for the count and 1 for the recount, the store *)
  estimate_token_count : nat -> nat -> list Turn -> res Z;
  (** call site, iteration, the store, [keep_recent] *)
  compress_context_impl : site -> nat -> list Turn -> nat
                          -> res CompressionResult;
  (** iteration, the store *)
  chat_completions_create : nat -> list Turn -> StreamRun;
  (** [None] is [json.JSONDecodeError] *)
  json_loads : string -> option json;
  tool_map : gmap string Tool
}.

(** ** State and control *)

Record CompressCall := {
  cc_site : site;
  cc_iteration : nat;
  cc_messages : list Turn;
  cc_keep_recent : nat
}.

(** The variable [messages], and the calls made to the compressor so far
    (each call writes a recovery snapshot). *)
Record State := {
  messages : list Turn;
  compress_log : list CompressCall
}.

Definition M (A : Type) : Type := State -> res A * State.

Definition ret {A} (a : A) : M A := fun st => (Ok a, st).

Definition raise {A} (e : exn) : M A := fun st => (Raise e, st).

Definition bind {A B} (m : M A) (k : A -> M B) : M B :=
  fun st =>
    match m st with
    | (Ok a, st') => k a st'
    | (Raise e, st') => (Raise e, st')
    end.

Notation "'do' x <- m ; k" := (bind m (fun x => k))
  (at level 10, x name, m at level 100, k at level 200).

(** [try: m  except <class>: h], where [catches] tells the exceptions of
    the class. What [m] did to the state before it raised stays done. *)
Definition try_except {A} (m : M A) (catches : exn -> bool)
    (h : exn -> M A) : M A :=
  fun st =>
    match m st with
    | (Ok a, st') => (Ok a, st')
    | (Raise e, st') => if catches e then h e st' else (Raise e, st')
    end.

Definition get_messages : M (list Turn) := fun st => (Ok (messages st), st).

Definition set_messages (ms : list Turn) : M unit :=
  fun st => (Ok tt, {| messages := ms; compress_log := compress_log st |}).

Definition append_message (t : Turn) : M unit :=
  fun st => (Ok tt, {| messages := messages st ++ [t];
                       compress_log := compress_log st |}).

Definition lift {A} (r : res A) : M A := fun st => (r, st).

Definition call_compress (env : Env) (s : site) (iteration keep_recent : nat)
  : M CompressionResult :=
  fun st =>
    (compress_context_impl env s iteration (messages st) keep_recent,
     {| messages := messages st;
        compress_log := compress_log st ++
          [ {| cc_site := s; cc_iteration := iteration;
               cc_messages := messages st;
               cc_keep_recent := keep_recent |} ] |}).

Definition call_estimate (env : Env) (iteration nth_call : nat) : M Z :=
  fun st => (estimate_token_count env iteration nth_call (messages st), st).

(** ** One iteration of the agent loop *)

Definition catch_Exception : exn -> bool := is_Exception.
Definition catch_all : exn -> bool := fun _ => true.

Definition key_error : exn := PyException "KeyError: 'message'".

(** Lines 236-262: the token count of the iteration. *)
Definition budget_phase (env : Env) (iteration : nat) : M Z :=
  try_except
    (do token_count <- call_estimate env iteration 0;
     if COMPRESSION_THRESHOLD <=? token_count
     then
       do compression_result <- call_compress env AtThreshold iteration 10;
       match compressed_messages compression_result with
       | Some ms =>
           do _ <- set_messages ms;
           do _ <- match cr_message compression_result with
                   | Some _ => ret tt
                   | None => raise key_error
                   end;
           call_estimate env iteration 1
       | None => ret token_count
       end
     else ret token_count)
    catch_Exception
    (fun _ => ret 0).

(** Lines 264-277: the periodic backup. *)
Definition backup_phase (env : Env) (iteration : nat) : M unit :=
  if (iteration mod BACKUP_INTERVAL =? 0)%nat
  then
    try_except
      (do ms <- get_messages;
       do _ <- call_compress env AtBackup iteration (length ms);
       ret tt)
      catch_Exception
      (fun _ => ret tt)
  else ret tt.

(** Lines 283-380: the streaming call. A chunk is handled before the next
    one is read, so an error of the accumulator comes before a later
    failure of the stream. *)
Definition call_model (env : Env) (iteration : nat) : M Accum :=
  do ms <- get_messages;
  let run := chat_completions_create env iteration ms in
  match accumulate initial_accum (sr_chunks run) with
  | Raise e => raise e
  | Ok acc =>
      match sr_failure run with
      | Some e => raise e
      | None => ret acc
      end
  end.

Definition type_error : exn :=
  PyException "TypeError: argument after ** must be a mapping".

(** The call of [tool_func] with [args] unpacked as keyword arguments;
    unpacking anything but a dictionary raises [TypeError]. *)
Definition call_tool (tool_func : Tool) (iteration position : nat)
    (args : json) : M string :=
  match args with
  | JObject members => lift (tool_func iteration position members)
  | _ => raise type_error
  end.

(** Lines 439-442. *)
Definition parse_arguments (env : Env) (args_str : string) : json :=
  match json_loads env args_str with
  | Some v => v
  | None => JObject []
  end.

(** Lines 447-475, once the arguments are parsed: the result text. *)
Definition run_tool (env : Env) (iteration position : nat)
    (func_name : string) (args : json) : M string :=
  match tool_map env !! func_name with
  | None => ret ("Error: Unknown tool '" +:+ func_name +:+ "'")
  | Some tool_func =>
      if String.eqb func_name "compress_context"
      then
        do result_data <- call_compress env AtToolCall iteration 10;
        let result :=
          default "Compression completed" (cr_message result_data) in
        do _ <- match compressed_messages result_data with
                | Some ms => set_messages ms
                | None => ret tt
                end;
        ret result
      else call_tool tool_func iteration position args
  end.

(** Lines 436-484: the body of [for tool_call in message.tool_calls]. *)
Definition dispatch (env : Env) (iteration position : nat)
    (tool_call : ToolCall) : M unit :=
  let func_name := call_name tool_call in
  let args := parse_arguments env (call_arguments tool_call) in
  do result <- run_tool env iteration position func_name args;
  append_message (tool_message (call_id tool_call) func_name result).

Fixpoint dispatch_all (env : Env) (iteration position : nat)
    (tool_calls : list ToolCall) : M unit :=
  match tool_calls with
  | [] => ret tt
  | tool_call :: rest =>
      do _ <- dispatch env iteration position tool_call;
      dispatch_all env iteration (S position) rest
  end.

(** How the body of the [for] loop ends when it does not raise. *)
Inductive Signal : Type :=
  | Next     (* the end of the body, or [continue] *)
  | Break.

(** Lines 281-484: the body of the [try] statement. *)
Definition model_turn (env : Env) (iteration : nat) : M Signal :=
  do acc <- call_model env iteration;
  let message := reconstruct acc in
  do _ <- append_message (convert_message_for_api message);
  match invocations message with
  | [] => ret Break
  | tool_calls =>
      do _ <- dispatch_all env iteration 0 tool_calls;
      ret Next
  end.

(** Lines 486-502: the handler of [KeyboardInterrupt]. *)
Definition on_interrupt (env : Env) (iteration : nat) : M Signal :=
  do _ <- try_except
            (do ms <- get_messages;
             do _ <- call_compress env AtInterrupt iteration (length ms);
             ret tt)
            catch_all
            (fun _ => ret tt);
  raise (SystemExit 0).

(** Lines 280-507: the [try] statement with its two handlers. An exception
    raised inside a handler is not offered to the other one. *)
Definition guarded_turn (env : Env) (iteration : nat) : M Signal :=
  fun st =>
    match model_turn env iteration st with
    | (Ok s, st') => (Ok s, st')
    | (Raise KeyboardInterrupt, st') => on_interrupt env iteration st'
    | (Raise (PyException _), st') => (Ok Next, st')
    | (Raise (SystemExit c), st') => (Raise (SystemExit c), st')
    end.

(** Lines 232-507: the body of the [for] loop. *)
Definition iteration_body (env : Env) (iteration : nat) : M Signal :=
  do _ <- budget_phase env iteration;
  do _ <- backup_phase env iteration;
  guarded_turn env iteration.

(** ** The loop and what follows it *)

Inductive LoopExit : Type :=
  | Exhausted   (* [range] ran out *)
  | Broke.      (* [break] at line 430 *)

(** [for iteration in <its>]; [last] is the value the variable [iteration]
    holds. The result carries the value it holds when the loop is left. *)
Fixpoint for_loop (env : Env) (its : list nat) (last : nat)
  : M (LoopExit * nat) :=
  match its with
  | [] => ret (Exhausted, last)
  | iteration :: rest =>
      do s <- iteration_body env iteration;
      match s with
      | Next => for_loop env rest iteration
      | Break => ret (Broke, iteration)
      end
  end.

(** Lines 231-507. *)
Definition agent_loop (env : Env) : M (LoopExit * nat) :=
  for_loop env (seq 1 MAX_ITERATIONS) 0%nat.

(** Lines 509-529. *)
Definition after_loop (env : Env) (iteration : nat) : M unit :=
  if (MAX_ITERATIONS <=? iteration)%nat
  then
    try_except
      (do ms <- get_messages;
       do _ <- call_compress env AtCap iteration (length ms);
       ret tt)
      catch_Exception
      (fun _ => ret tt)
  else ret tt.

(** Lines 231-529: the loop and the check that follows it. *)
Definition run_agent (env : Env) : M unit :=
  do r <- agent_loop env;
  after_loop env (snd r).

(** [main] from line 200 on, given the prompt. The result [Ok tt] is a
    return from [main]; [Raise e] is [e] leaving [main]. *)
Definition main (env : Env) (system_prompt user_prompt : string)
    (is_recovery : bool) : res unit * State :=
  run_agent env
    {| messages := initial_messages system_prompt user_prompt is_recovery;
       compress_log := [] |}.

(** ** Vocabulary of the statements about the accumulator *)

(** The tool-call deltas of a stream, in arrival order. *)
Definition chunk_deltas (c : Chunk) : list ToolCallDelta :=
  match choices c with
  | [] => []
  | ch :: _ => default [] (d_tool_calls (delta ch))
  end.

Definition tool_deltas (chunks : list Chunk) : list ToolCallDelta :=
  flat_map chunk_deltas chunks.

(** The deltas that address slot [i]. *)
Definition for_slot (i : nat) (ds : list ToolCallDelta) : list ToolCallDelta :=
  filter (fun d => tcd_index d = Z.of_nat i) ds.

(** The argument fragment, the id and the name a delta delivers. *)
Definition fragment (d : ToolCallDelta) : string :=
  match tcd_function d with
  | Some f => default EmptyString (fd_arguments f)
  | None => EmptyString
  end.

Definition delivered_id (d : ToolCallDelta) : option string :=
  if truthy (tcd_id d) then tcd_id d else None.

Definition delivered_name (d : ToolCallDelta) : option string :=
  match tcd_function d with
  | Some f => if truthy (fd_name f) then fd_name f else None
  | None => None
  end.

Definition concat_strings (l : list string) : string :=
  foldr String.append EmptyString l.

Definition fragments_for (i : nat) (ds : list ToolCallDelta) : string :=
  concat_strings (fragment <$> for_slot i ds).

Definition ids_for (i : nat) (ds : list ToolCallDelta) : list string :=
  omap delivered_id (for_slot i ds).

Definition names_for (i : nat) (ds : list ToolCallDelta) : list string :=
  omap delivered_name (for_slot i ds).

(** One more than the largest slot index referenced. *)
Definition slot_count (ds : list ToolCallDelta) : nat :=
  foldr (fun d n => Nat.max (Z.to_nat (tcd_index d + 1)) n) 0%nat ds.

(** The tool call slot [i] stands for at the end of the stream, if an id
    was ever assigned to it. *)
Definition expected_call (i : nat) (ds : list ToolCallDelta)
  : option ToolCall :=
  match last (ids_for i ds) with
  | Some id =>
      Some {| call_id := id;
              call_name := default EmptyString (last (names_for i ds));
              call_arguments := fragments_for i ds |}
  | None => None
  end.

Definition expected_invocations (ds : list ToolCallDelta) : list ToolCall :=
  omap (fun i => expected_call i ds) (seq 0 (slot_count ds)).

(** No delta references a slot before a delta (itself included) has
    assigned an id to that slot. [seen] are the slots with an id. *)
Fixpoint id_first_from (seen : list Z) (ds : list ToolCallDelta) : bool :=
  match ds with
  | [] => true
  | d :: ds' =>
      if truthy (tcd_id d)
      then id_first_from (tcd_index d :: seen) ds'
      else if bool_decide (tcd_index d ∈ seen)
           then id_first_from seen ds'
           else false
  end.

Definition id_first (ds : list ToolCallDelta) : bool := id_first_from [] ds.

Definition nonneg_indices (ds : list ToolCallDelta) : Prop :=
  Forall (fun d => 0 <= tcd_index d) ds.

(** The deltas of slot [i] applied in arrival order to the slot [s]. *)
Definition apply_deltas (s : Slot) (l : list ToolCallDelta) : Slot :=
  foldl update_slot s l.

(** ** Sample streams *)

Definition nonneg_indicesb (ds : list ToolCallDelta) : bool :=
  forallb (fun d => 0 <=? tcd_index d) ds.

Definition tc_delta (index : Z) (id name arguments : option string)
  : ToolCallDelta :=
  {| tcd_index := index; tcd_id := id;
     tcd_function := Some {| fd_name := name; fd_arguments := arguments |} |}.

Definition tool_chunk (ds : list ToolCallDelta) : Chunk :=
  {| choices :=
       [ {| delta := {| d_role := None; d_reasoning_content := None;
                        d_content := None; d_tool_calls := Some ds |};
            finish_reason := None |} ] |}.

Definition content_chunk (text : string) : Chunk :=
  {| choices :=
       [ {| delta := {| d_role := Some "assistant";
                        d_reasoning_content := None;
                        d_content := Some text; d_tool_calls := None |};
            finish_reason := None |} ] |}.

(** Two interleaved tool calls, each opened by the delta that carries its
    id. *)
Definition interleaved_stream : list Chunk :=
  [ tool_chunk [tc_delta 0 (Some "call_a") (Some "write_file") (Some "{")];
    tool_chunk [tc_delta 1 (Some "call_b") (Some "list_files") (Some "[1,")];
    tool_chunk [tc_delta 0 None None (Some "}")];
    tool_chunk [tc_delta 1 None None (Some "2]")] ].

(** Slot 1 receives fragments and a name but never an id. *)
Definition orphan_stream : list Chunk :=
  [ tool_chunk [tc_delta 0 (Some "call_a") (Some "write_file") (Some "{")];
    tool_chunk [tc_delta 1 None (Some "list_files") (Some "[1,")];
    tool_chunk [tc_delta 0 None None (Some "}");
                tc_delta 1 None None (Some "2]")] ].

(** Slot 0 is sent two ids and two names. *)
Definition renamed_stream : list Chunk :=
  [ tool_chunk [tc_delta 0 (Some "call_a") (Some "write_file") (Some "{")];
    tool_chunk [tc_delta 0 (Some "call_b") (Some "list_files") (Some "}")] ].

(** The reading of "once set, the first non-empty value wins": at the end
    of the stream every slot holds the first id and the first name that
    were delivered for it. *)
Definition first_value_wins (ds : list ToolCallDelta) (data : list Slot)
  : Prop :=
  forall (i : nat) (s : Slot), data !! i = Some s ->
    tc_id s = head (ids_for i ds)
    /\ tc_name s = default EmptyString (head (names_for i ds)).

(** ** Sample environments *)

Definition snapshot_only : CompressionResult :=
  {| compressed_messages := None; cr_message := Some "Context saved";
     tokens_saved := Some 0; summary_file := Some ".context_summary.md" |}.

Definition summary_turn : Turn :=
  plain_turn "user" "[CONTEXT SUMMARY] the story so far".

(** An environment given by what the estimator, the compressor and the
    stream do in each iteration. [json.loads] is cut down to the one text
    the samples need. *)
Definition sample_env (estimate : nat -> nat -> res Z)
    (compress : site -> list Turn -> res CompressionResult)
    (stream : nat -> StreamRun) (tools : gmap string Tool) : Env :=
  {| estimate_token_count :=
       fun iteration nth_call _ => estimate iteration nth_call;
     compress_context_impl := fun s _ ms _ => compress s ms;
     chat_completions_create := fun iteration _ => stream iteration;
     json_loads := fun text =>
       if String.eqb text "{}" then Some (JObject []) else None;
     tool_map := tools |}.

Definition small_count : nat -> nat -> res Z := fun _ _ => Ok 1200.

Definition saves_snapshot : site -> list Turn -> res CompressionResult :=
  fun _ _ => Ok snapshot_only.

Definition completed (chunks : list Chunk) : StreamRun :=
  {| sr_chunks := chunks; sr_failure := None |}.

Definition failed (e : exn) : StreamRun :=
  {| sr_chunks := []; sr_failure := Some e |}.

Definition one_call_stream (name arguments : string) : list Chunk :=
  [ tool_chunk [tc_delta 0 (Some "call_a") (Some name) (Some arguments)] ].

Definition start_state : State :=
  {| messages := initial_messages "You are a writer." "write a haiku" false;
     compress_log := [] |}.

(** The model answers with text only. *)
Definition haiku_env : Env :=
  sample_env small_count saves_snapshot
    (fun _ => completed [content_chunk "An old silent pond"]) ∅.

(** The model calls [write_file], which raises. *)
Definition failing_tool : Tool :=
  fun _ _ _ => Raise (PyException "disk full").

Definition failing_tool_env : Env :=
  sample_env small_count saves_snapshot
    (fun _ => completed (one_call_stream "write_file" "{}"))
    {[ "write_file" := failing_tool ]}.

(** The model calls a tool the registry does not have. *)
Definition unknown_tool_env : Env :=
  sample_env small_count saves_snapshot
    (fun _ => completed (one_call_stream "list_files" "{}")) ∅.

(** The count is over the threshold, the compressor shrinks the store, and
    the recount fails. *)
Definition recount_fails_env : Env :=
  sample_env
    (fun _ nth_call =>
       match nth_call with
       | O => Ok 190000
       | _ => Raise (PyException "estimator unreachable")
       end)
    (fun _ ms =>
       Ok {| compressed_messages := Some (take 1 ms ++ [summary_turn])%list;
             cr_message := Some "Compressed 1 message";
             tokens_saved := Some 100000;
             summary_file := Some ".context_summary.md" |})
    (fun _ => completed [content_chunk "An old silent pond"]) ∅.

(** The estimator is unreachable. *)
Definition no_estimate_env : Env :=
  sample_env (fun _ _ => Raise (PyException "estimator unreachable"))
    saves_snapshot
    (fun _ => completed [content_chunk "An old silent pond"]) ∅.

(** The model call fails in every iteration. *)
Definition offline_env : Env :=
  sample_env small_count saves_snapshot
    (fun _ => failed (PyException "connection reset")) ∅.

(** The user interrupts the first token count. *)
Definition interrupted_count_env : Env :=
  sample_env (fun _ _ => Raise KeyboardInterrupt) saves_snapshot
    (fun _ => completed [content_chunk "An old silent pond"]) ∅.

(** The model call fails until the last iteration, which answers with text
    only. *)
Definition last_minute_env : Env :=
  sample_env small_count saves_snapshot
    (fun iteration =>
       if (iteration <? MAX_ITERATIONS)%nat
       then failed (PyException "connection reset")
       else completed [content_chunk "The end."]) ∅.

(** ** Vocabulary of the statements about the loop *)

(** The tool Turns of a store that answer the invocation [id]. *)
Definition answers (id : string) (ms : list Turn) : list Turn :=
  filter (fun t => t_role t = "tool" /\ t_tool_call_id t = Some id) ms.

(** The state after [messages.append(t)]. *)
Definition push (st : State) (t : Turn) : State :=
  {| messages := messages st ++ [t]; compress_log := compress_log st |}.

(** The state after one call to the compressor from site [s]. *)
Definition logged (st : State) (s : site) (iteration keep_recent : nat)
  : State :=
  {| messages := messages st;
     compress_log := compress_log st ++
       [ {| cc_site := s; cc_iteration := iteration;
            cc_messages := messages st; cc_keep_recent := keep_recent |} ] |}.

Ltac unfold_monad :=
  unfold bind, ret, raise, lift, try_except, get_messages, set_messages,
    append_message, call_compress, call_estimate, push, logged in *.

(** The part of an iteration that comes before the model call. *)
Definition before_model_call (env : Env) (iteration : nat) : M unit :=
  do _ <- budget_phase env iteration;
  backup_phase env iteration.

(** ** Start-up (lines 37-116) *)

(** What [parser.parse_args()] returns: each argument is [None] or a
    string. *)
Record Args := {
  args_prompt : option string;
  args_recover : option string
}.

(** The console and the file system: reading a whole file, one call of
    [input], and the built-in [str.strip] and [str.lower]. *)
Record Terminal := {
  read_file : string -> res string;
  input : res string;
  str_strip : string -> string;
  str_lower : string -> string
}.

(** Lines 37-54. [sys.exit(1)] is called inside the handler, so the
    [SystemExit] it raises leaves the function. *)
Definition load_context_from_file (t : Terminal) (file_path : string)
  : res string :=
  match read_file t file_path with
  | Ok content => Ok content
  | Raise e => if is_Exception e then Raise (SystemExit 1) else Raise e
  end.

(** Lines 57-116, once the arguments are parsed. *)
Definition get_user_input (t : Terminal) (args : Args)
  : res (string * bool) :=
  if truthy (args_recover args)
  then
    match load_context_from_file t (default EmptyString (args_recover args))
    with
    | Ok context => Ok (context, true)
    | Raise e => Raise e
    end
  else if truthy (args_prompt args)
  then Ok (default EmptyString (args_prompt args), false)
  else
    match input t with
    | Raise e => Raise e
    | Ok line =>
        let prompt := str_strip t line in
        if bool_decide (str_lower t prompt ∈ ["quit"; "exit"; "q"])
        then Raise (SystemExit 0)
        else if String.eqb prompt EmptyString
        then Raise (SystemExit 1)
        else Ok (prompt, false)
    end.

(** A terminal for the samples: no file can be read, the user types
    [text], and the two string functions leave their argument alone. *)
Definition sample_terminal (text : string) : Terminal :=
  {| read_file := fun _ => Raise (PyException "No such file or directory");
     input := Ok text;
     str_strip := fun s => s;
     str_lower := fun s => s |}.

(** ** Vocabulary of the statements about the text fields *)

(** The content, the reasoning and the role a chunk delivers. *)
Definition chunk_content (c : Chunk) : string :=
  match choices c with
  | [] => EmptyString
  | ch :: _ => default EmptyString (d_content (delta ch))
  end.

Definition chunk_reasoning (c : Chunk) : string :=
  match choices c with
  | [] => EmptyString
  | ch :: _ => default EmptyString (d_reasoning_content (delta ch))
  end.

Definition chunk_role (c : Chunk) : option string :=
  match choices c with
  | [] => None
  | ch :: _ => if truthy (d_role (delta ch)) then d_role (delta ch) else None
  end.

Definition has_choices (c : Chunk) : bool :=
  match choices c with
  | [] => false
  | _ :: _ => true
  end.

(** [chars_received] counts the characters of the argument string. *)
Definition counts_its_arguments (tc : Slot) : Prop :=
  chars_received tc = Z.of_nat (String.length (tc_arguments tc)).

(** A Turn none of whose keys holds a falsy value. *)
Definition no_falsy_value (t : Turn) : Prop :=
  t_role t <> EmptyString
  /\ t_content t <> Some EmptyString
  /\ t_reasoning_content t <> Some EmptyString
  /\ t_tool_calls t <> Some []
  /\ t_tool_call_id t <> Some EmptyString
  /\ t_name t <> Some EmptyString.

(** ** Vocabulary of the statements about the dispatcher *)

(** The name is in the tool map and is the one the dispatcher hands to
    the compressor. *)
Definition special_cased (env : Env) (tool_call : ToolCall) : bool :=
  match tool_map env !! call_name tool_call with
  | Some _ => String.eqb (call_name tool_call) "compress_context"
  | None => false
  end.

(** What an invocation that is not special-cased comes to: the text for an
    unknown name, or what the tool does with the parsed arguments. *)
Definition tool_outcome (env : Env) (iteration position : nat)
    (tool_call : ToolCall) : res string :=
  match tool_map env !! call_name tool_call with
  | None => Ok ("Error: Unknown tool '" +:+ call_name tool_call +:+ "'")
  | Some tool_func =>
      match parse_arguments env (call_arguments tool_call) with
      | JObject members => tool_func iteration position members
      | _ => Raise type_error
      end
  end.

Fixpoint outcomes (env : Env) (iteration position : nat)
    (tool_calls : list ToolCall) : list (res string) :=
  match tool_calls with
  | [] => []
  | tool_call :: rest =>
      tool_outcome env iteration position tool_call
      :: outcomes env iteration (S position) rest
  end.

(** The tool Turns that answer [tool_calls] with [results], pairwise. *)
Definition answer_turns (tool_calls : list ToolCall) (results : list string)
  : list Turn :=
  zip_with (fun tool_call result =>
              tool_message (call_id tool_call) (call_name tool_call) result)
           tool_calls results.

(** The two sites that use the store the compressor hands back. *)
Definition shrinking_site (s : site) : Prop :=
  s = AtThreshold \/ s = AtToolCall.

(** At those two sites the compressor never hands back a store. *)
Definition snapshots_only (env : Env) : Prop :=
  forall s iteration ms keep_recent result,
    shrinking_site s ->
    compress_context_impl env s iteration ms keep_recent = Ok result ->
    compressed_messages result = None.

(** The record of one call to the compressor. *)
Definition compress_call (s : site) (iteration : nat) (ms : list Turn)
    (keep_recent : nat) : CompressCall :=
  {| cc_site := s; cc_iteration := iteration; cc_messages := ms;
     cc_keep_recent := keep_recent |}.

(** The mode in which each site calls the compressor: [keep_recent] is 10
    where the store is to shrink, and the length of the store where only
    the snapshot is wanted; the backup runs in multiples of the interval. *)
Definition mode_matches_site (c : CompressCall) : Prop :=
  match cc_site c with
  | AtThreshold | AtToolCall => cc_keep_recent c = 10%nat
  | AtBackup =>
      cc_keep_recent c = length (cc_messages c)
      /\ (cc_iteration c mod BACKUP_INTERVAL)%nat = 0%nat
  | AtInterrupt | AtCap => cc_keep_recent c = length (cc_messages c)
  end.

(** A relation between the state a computation starts from and the state
    it ends in, whether it returns or raises. *)
Definition keeps {A} (R : State -> State -> Prop) (m : M A) : Prop :=
  forall st, R st (snd (m st)).

(** The store the computation started from is a prefix of the store it
    ends with. *)
Definition store_extended (st st' : State) : Prop :=
  messages st `prefix_of` messages st'.

(** The compressor log grew by calls that all satisfy [P]. *)
Definition log_extended_by (P : CompressCall -> Prop) (st st' : State)
  : Prop :=
  exists calls : list CompressCall,
    compress_log st' = (compress_log st ++ calls)%list /\ Forall P calls.

(** The computation lets no exception of class [Exception] out. *)
Definition lets_no_Exception_out {A} (m : M A) : Prop :=
  forall st msg, fst (m st) <> Raise (PyException msg).

(** The registry has [write_file], which succeeds, and [compress_context];
    the compressor shrinks the store to its first entry and a summary. *)
Definition writing_tool : Tool := fun _ _ _ => Ok "File written".

Definition shrinks : site -> list Turn -> res CompressionResult :=
  fun _ ms =>
    Ok {| compressed_messages := Some (take 1 ms ++ [summary_turn])%list;
          cr_message := Some "Compressed";
          tokens_saved := Some 100000;
          summary_file := Some ".context_summary.md" |}.

Definition self_compress_env : Env :=
  sample_env small_count shrinks
    (fun _ => completed (one_call_stream "compress_context" "{}"))
    {[ "write_file" := writing_tool; "compress_context" := writing_tool ]}.

Definition writing_env : Env :=
  sample_env small_count saves_snapshot
    (fun _ => completed (one_call_stream "write_file" "{}"))
    {[ "write_file" := writing_tool ]}.

(** The user interrupts the stream of every iteration after one chunk. *)
Definition interrupted_stream_env : Env :=
  sample_env small_count saves_snapshot
    (fun _ => {| sr_chunks := [content_chunk "An old"];
                 sr_failure := Some KeyboardInterrupt |}) ∅.

(** ** The accumulator: one delta *)

Lemma length_extend_slots data z :
  length (extend_slots data z) = Nat.max (length data) (Z.to_nat (z + 1)).
Proof.
  unfold extend_slots. rewrite length_app, length_replicate. lia.
Qed.

Lemma lookup_extend_slots data z (i : nat) :
  (i < length (extend_slots data z))%nat ->
  extend_slots data z !! i = Some (default empty_slot (data !! i)).
Proof.
  intros Hi. unfold extend_slots in *.
  destruct (decide (i < length data)%nat) as [Hlt|Hge].
  - rewrite lookup_app_l by done.
    destruct (lookup_lt_is_Some_2 data i Hlt) as [s Hs]. by rewrite Hs.
  - rewrite lookup_app_r by lia.
    rewrite length_app, length_replicate in Hi.
    rewrite lookup_replicate_2 by lia.
    rewrite lookup_ge_None_2 by lia. done.
Qed.

Lemma py_index_extend_slots data z :
  0 <= z -> py_index (extend_slots data z) z = Some (Z.to_nat z).
Proof.
  intros Hz. unfold py_index. rewrite length_extend_slots.
  destruct (Z.leb_spec 0 z); [|lia].
  destruct (Z.ltb_spec z (Z.of_nat (Nat.max (length data) (Z.to_nat (z + 1)))));
    [done|lia].
Qed.

(** For a zero-based index the delta updates slot [index] of the extended
    list. *)
Lemma process_tc_delta_nonneg data d :
  0 <= tcd_index d ->
  process_tc_delta data d =
    Ok (<[Z.to_nat (tcd_index d) :=
            update_slot (default empty_slot (data !! Z.to_nat (tcd_index d))) d]>
          (extend_slots data (tcd_index d))).
Proof.
  intros Hz. unfold process_tc_delta.
  rewrite py_index_extend_slots by done.
  rewrite lookup_extend_slots; [done|].
  rewrite length_extend_slots. lia.
Qed.

Lemma update_slot_id tc d :
  tc_id (update_slot tc d) = from_option Some (tc_id tc) (delivered_id d).
Proof.
  unfold update_slot, delivered_id.
  destruct (truthy (tcd_id d)) eqn:Hid;
    destruct (tcd_function d) as [f|]; simpl;
    try destruct (truthy (fd_name f)); try destruct (truthy (fd_arguments f));
    simpl; try done;
    destruct (tcd_id d); simpl in *; done.
Qed.

Lemma update_slot_name tc d :
  tc_name (update_slot tc d) = default (tc_name tc) (delivered_name d).
Proof.
  unfold update_slot, delivered_name.
  destruct (tcd_function d) as [f|]; simpl.
  - destruct (truthy (fd_name f)) eqn:Hn;
      destruct (truthy (fd_arguments f)); destruct (truthy (tcd_id d));
      simpl; try done;
      destruct (fd_name f); simpl in *; done.
  - destruct (truthy (tcd_id d)); done.
Qed.

Lemma append_empty_r (s : string) : s +:+ EmptyString = s.
Proof.
  induction s as [|a s IH]; [done|].
  change (String a (s +:+ EmptyString) = String a s). by rewrite IH.
Qed.

Lemma append_assoc (a b c : string) : (a +:+ b) +:+ c = a +:+ (b +:+ c).
Proof.
  induction a as [|x a IH]; [done|].
  change (String x ((a +:+ b) +:+ c) = String x (a +:+ (b +:+ c))).
  by rewrite IH.
Qed.

Lemma truthy_false_default (o : option string) :
  truthy o = false -> default EmptyString o = EmptyString.
Proof.
  destruct o as [s|]; simpl; [|done].
  destruct (String.eqb_spec s EmptyString); [done|discriminate].
Qed.

Lemma update_slot_arguments tc d :
  tc_arguments (update_slot tc d) = tc_arguments tc +:+ fragment d.
Proof.
  unfold update_slot, fragment.
  destruct (tcd_function d) as [f|]; simpl.
  - destruct (truthy (fd_arguments f)) eqn:Ha;
      destruct (truthy (fd_name f)); destruct (truthy (tcd_id d));
      simpl; try done;
      rewrite (truthy_false_default _ Ha), append_empty_r; done.
  - rewrite append_empty_r. destruct (truthy (tcd_id d)); done.
Qed.

(** A negative index is outside the zero-based numbering of the slots:
    Python resolves it from the end of the list, or raises [IndexError]
    when the list is too short. *)
Example negative_index_on_empty_list :
  accumulate initial_accum
    [tool_chunk [tc_delta (-1) (Some "call_a") (Some "write_file") None]]
  = Raise index_error.
Proof. reflexivity. Qed.

Example negative_index_reads_from_the_end :
  process_tc_delta [empty_slot; empty_slot]
    (tc_delta (-1) (Some "call_a") None None)
  = Ok [ empty_slot;
         {| tc_id := Some "call_a"; tc_name := EmptyString;
            tc_arguments := EmptyString; chars_received := 0 |} ].
Proof. reflexivity. Qed.

(** ** The accumulator: a whole stream *)

Lemma slot_count_cons d ds :
  slot_count (d :: ds) = Nat.max (Z.to_nat (tcd_index d + 1)) (slot_count ds).
Proof. done. Qed.

Lemma for_slot_cons_same i d ds :
  i = Z.to_nat (tcd_index d) -> 0 <= tcd_index d ->
  for_slot i (d :: ds) = d :: for_slot i ds.
Proof. intros Hi Hz. unfold for_slot. apply filter_cons_True. lia. Qed.

Lemma for_slot_cons_other i d ds :
  i <> Z.to_nat (tcd_index d) -> 0 <= tcd_index d ->
  for_slot i (d :: ds) = for_slot i ds.
Proof. intros Hi Hz. unfold for_slot. apply filter_cons_False. lia. Qed.

(** The accumulated list is, slot by slot, the result of applying to the
    initial slot (or to a placeholder) the deltas that address it. *)
Lemma process_tc_deltas_spec ds : forall data,
  nonneg_indices ds ->
  exists data',
    process_tc_deltas data ds = Ok data'
    /\ length data' = Nat.max (length data) (slot_count ds)
    /\ forall i : nat, (i < length data')%nat ->
         data' !! i
         = Some (apply_deltas (default empty_slot (data !! i)) (for_slot i ds)).
Proof.
  induction ds as [|d ds IH]; intros data Hnn.
  - exists data. split; [done|]. split; [simpl; lia|].
    intros i Hi. destruct (lookup_lt_is_Some_2 data i Hi) as [s Hs].
    by rewrite Hs.
  - apply Forall_cons in Hnn as [Hd Hnn].
    set (k := Z.to_nat (tcd_index d)).
    set (data1 := <[k := update_slot (default empty_slot (data !! k)) d]>
                    (extend_slots data (tcd_index d))).
    destruct (IH data1 Hnn) as (data' & Hrun & Hlen & Hlook).
    assert (Hlen1 : length data1 = Nat.max (length data) (S k)).
    { unfold data1. rewrite length_insert, length_extend_slots. lia. }
    exists data'. split; [|split].
    + simpl. rewrite process_tc_delta_nonneg by done. exact Hrun.
    + rewrite Hlen, Hlen1, slot_count_cons. lia.
    + intros i Hi. rewrite (Hlook i Hi). f_equal.
      destruct (decide (i = k)) as [->|Hne].
      * rewrite (for_slot_cons_same k d ds) by done. simpl.
        unfold data1. rewrite list_lookup_insert_eq; [done|].
        rewrite length_extend_slots. lia.
      * rewrite for_slot_cons_other by done.
        unfold data1. rewrite list_lookup_insert_ne by done.
        destruct (decide (i < length (extend_slots data (tcd_index d)))%nat)
          as [Hlt|Hge].
        -- by rewrite lookup_extend_slots.
        -- rewrite lookup_ge_None_2 by lia.
           rewrite length_extend_slots in Hge.
           rewrite lookup_ge_None_2 by lia. done.
Qed.

Lemma last_cons_from_option {A} (x : A) (l : list A) :
  last (x :: l) = Some (default x (last l)).
Proof.
  rewrite last_cons. by destruct (last l).
Qed.

Lemma apply_deltas_id l : forall s,
  tc_id (apply_deltas s l)
  = from_option Some (tc_id s) (last (omap delivered_id l)).
Proof.
  induction l as [|d l IH]; intros s; [done|].
  unfold apply_deltas in *. simpl. rewrite IH, update_slot_id.
  destruct (delivered_id d) as [x|]; simpl;
    change (list_omap _ _ delivered_id l) with (omap delivered_id l);
    [|done].
  rewrite last_cons_from_option. by destruct (last (omap delivered_id l)).
Qed.

Lemma apply_deltas_name l : forall s,
  tc_name (apply_deltas s l)
  = default (tc_name s) (last (omap delivered_name l)).
Proof.
  induction l as [|d l IH]; intros s; [done|].
  unfold apply_deltas in *. simpl. rewrite IH, update_slot_name.
  destruct (delivered_name d) as [x|]; simpl;
    change (list_omap _ _ delivered_name l) with (omap delivered_name l);
    [|done].
  rewrite last_cons_from_option. by destruct (last (omap delivered_name l)).
Qed.

Lemma apply_deltas_arguments l : forall s,
  tc_arguments (apply_deltas s l)
  = tc_arguments s +:+ concat_strings (fragment <$> l).
Proof.
  induction l as [|d l IH]; intros s.
  - simpl. by rewrite append_empty_r.
  - unfold apply_deltas in *. simpl.
    rewrite IH, update_slot_arguments, append_assoc. done.
Qed.

Lemma delivered_id_truthy d x :
  delivered_id d = Some x -> truthy (Some x) = true.
Proof.
  unfold delivered_id. destruct (truthy (tcd_id d)) eqn:Hd; [|done].
  intros Heq. by rewrite <- Heq.
Qed.

(** A slot built from placeholders becomes a tool call exactly when an id
    was delivered for it. *)
Lemma slot_to_call_expected i ds :
  slot_to_call (apply_deltas empty_slot (for_slot i ds)) = expected_call i ds.
Proof.
  unfold slot_to_call, expected_call, ids_for, names_for, fragments_for.
  rewrite apply_deltas_id, apply_deltas_name, apply_deltas_arguments. simpl.
  destruct (last (omap delivered_id (for_slot i ds))) as [x|] eqn:Hlast;
    simpl; [|done].
  assert (Htr : truthy (Some x) = true).
  { apply last_Some_elem_of in Hlast.
    apply list_elem_of_omap in Hlast as (d & _ & Hd).
    by eapply delivered_id_truthy. }
  simpl in Htr. by rewrite Htr.
Qed.

Lemma process_tc_deltas_from_nil ds :
  nonneg_indices ds ->
  process_tc_deltas [] ds
  = Ok ((fun i => apply_deltas empty_slot (for_slot i ds))
          <$> seq 0 (slot_count ds)).
Proof.
  intros Hnn.
  destruct (process_tc_deltas_spec ds [] Hnn) as (data' & Hrun & Hlen & Hlook).
  rewrite Hrun. f_equal. simpl in Hlen.
  apply list_eq. intros i. rewrite list_lookup_fmap.
  destruct (decide (i < slot_count ds)%nat) as [Hlt|Hge].
  - rewrite Hlook by lia. rewrite lookup_seq_lt by done. done.
  - rewrite lookup_ge_None_2 by lia. rewrite lookup_seq_ge by lia. done.
Qed.

Lemma process_tc_deltas_app ds1 : forall ds2 data,
  process_tc_deltas data (ds1 ++ ds2)
  = match process_tc_deltas data ds1 with
    | Ok data' => process_tc_deltas data' ds2
    | Raise e => Raise e
    end.
Proof.
  induction ds1 as [|d ds1 IH]; intros ds2 data; [done|].
  simpl. destruct (process_tc_delta data d); [apply IH|done].
Qed.

Lemma process_chunk_deltas st c :
  match process_chunk st c with
  | Ok st' =>
      process_tc_deltas (tool_calls_data st) (chunk_deltas c)
      = Ok (tool_calls_data st')
  | Raise e =>
      process_tc_deltas (tool_calls_data st) (chunk_deltas c) = Raise e
  end.
Proof.
  unfold process_chunk, chunk_deltas.
  destruct (choices c) as [|ch ?]; [done|].
  by destruct (process_tc_deltas _ _).
Qed.

(** The slots of the accumulator depend on the tool-call deltas only. *)
Lemma accumulate_deltas chunks : forall st,
  match accumulate st chunks with
  | Ok st' =>
      process_tc_deltas (tool_calls_data st) (tool_deltas chunks)
      = Ok (tool_calls_data st')
  | Raise e =>
      process_tc_deltas (tool_calls_data st) (tool_deltas chunks) = Raise e
  end.
Proof.
  induction chunks as [|c chunks IH]; intros st; [done|].
  simpl. unfold tool_deltas. simpl. rewrite process_tc_deltas_app.
  pose proof (process_chunk_deltas st c) as Hc.
  destruct (process_chunk st c) as [st1|e]; rewrite Hc; [apply IH|done].
Qed.

Lemma omap_fmap_seq {A B} (f : nat -> A) (g : A -> option B) (l : list nat) :
  omap g (f <$> l) = omap (fun i => g (f i)) l.
Proof.
  induction l as [|x l IH]; [done|].
  simpl. destruct (g (f x)); [f_equal|]; exact IH.
Qed.

Lemma reconstruct_invocations acc :
  invocations (reconstruct acc) = omap slot_to_call (tool_calls_data acc).
Proof.
  unfold invocations, reconstruct. simpl.
  by destruct (tool_calls_data acc).
Qed.

(** The finalized invocations of any stream with zero-based indices. *)
Lemma accumulate_invocations chunks :
  nonneg_indices (tool_deltas chunks) ->
  exists acc,
    accumulate initial_accum chunks = Ok acc
    /\ invocations (reconstruct acc) = expected_invocations (tool_deltas chunks).
Proof.
  intros Hnn.
  pose proof (accumulate_deltas chunks initial_accum) as Hacc.
  rewrite process_tc_deltas_from_nil in Hacc by done.
  destruct (accumulate initial_accum chunks) as [acc|e]; [|done].
  exists acc. split; [done|].
  injection Hacc as Hdata.
  rewrite reconstruct_invocations, <- Hdata.
  unfold expected_invocations.
  rewrite omap_fmap_seq. apply list_omap_ext.
  apply Forall2_same_length_lookup. split; [done|].
  intros i x y Hx Hy. rewrite Hx in Hy. injection Hy as <-.
  by rewrite slot_to_call_expected.
Qed.

(** ** The accumulator: the statements *)

Lemma nonneg_indicesb_spec ds :
  nonneg_indicesb ds = true -> nonneg_indices ds.
Proof.
  unfold nonneg_indicesb, nonneg_indices.
  induction ds as [|d ds IH]; simpl; [constructor|].
  intros [Hd Hds]%andb_prop. constructor; [lia|by apply IH].
Qed.

Lemma ids_for_cons_nonempty i d ds :
  0 <= tcd_index d -> ids_for i ds <> [] -> ids_for i (d :: ds) <> [].
Proof.
  intros Hz Hne. unfold ids_for, for_slot in *.
  rewrite filter_cons. destruct (decide _); [|done].
  simpl. by destruct (delivered_id d).
Qed.

(** Under the premise that every slot is opened by a delta carrying its
    id, every slot that is referenced has an id. *)
Lemma id_first_from_ids ds : forall seen,
  nonneg_indices ds -> id_first_from seen ds = true ->
  forall d, d ∈ ds ->
    tcd_index d ∈ seen \/ ids_for (Z.to_nat (tcd_index d)) ds <> [].
Proof.
  induction ds as [|d0 ds IH]; intros seen Hnn Hfirst d Hin.
  - by apply elem_of_nil in Hin.
  - apply Forall_cons in Hnn as [Hd0 Hnn]. simpl in Hfirst.
    destruct (truthy (tcd_id d0)) eqn:Hid.
    + assert (Hhead : forall i, Z.of_nat i = tcd_index d0 ->
                ids_for i (d0 :: ds) <> []).
      { intros i Hi. unfold ids_for, for_slot.
        rewrite filter_cons_True by done. simpl.
        unfold delivered_id. rewrite Hid.
        destruct (tcd_id d0); [done|discriminate]. }
      apply elem_of_cons in Hin as [->|Hin].
      * right. apply Hhead. lia.
      * destruct (IH _ Hnn Hfirst d Hin) as [Hseen|Hids].
        -- apply elem_of_cons in Hseen as [Heq|Hseen]; [|by left].
           right. apply Hhead.
           assert (0 <= tcd_index d) by (rewrite Heq; done). lia.
        -- right. by apply ids_for_cons_nonempty.
    + destruct (bool_decide (tcd_index d0 ∈ seen)) eqn:Hseen0; [|done].
      apply bool_decide_eq_true in Hseen0.
      apply elem_of_cons in Hin as [->|Hin]; [by left|].
      destruct (IH _ Hnn Hfirst d Hin) as [Hseen|Hids]; [by left|].
      right. by apply ids_for_cons_nonempty.
Qed.

Lemma expected_call_is_Some i ds :
  is_Some (expected_call i ds) <-> ids_for i ds <> [].
Proof.
  unfold expected_call. rewrite <- last_is_Some.
  destruct (last (ids_for i ds)); split; intros [x Hx]; by eauto.
Qed.

Lemma omap_filter_None {A} (f : nat -> option A) (i : nat) (l : list nat) :
  f i = None -> omap f (filter (fun j => j <> i) l) = omap f l.
Proof.
  intros Hi. induction l as [|j l IH]; [done|].
  rewrite filter_cons. destruct (decide (j <> i)) as [Hne|Heq].
  - simpl. destruct (f j); [f_equal|]; exact IH.
  - assert (j = i) as -> by (destruct (decide (j = i)); [done|contradiction]).
    simpl. rewrite Hi. exact IH.
Qed.



(** The slot that never gets an id is dropped with its fragments. *)
Example orphan_slot_dropped :
  exists acc,
    accumulate initial_accum orphan_stream = Ok acc
    /\ tool_calls_data acc !! 1%nat
       = Some {| tc_id := None; tc_name := "list_files";
                 tc_arguments := "[1,2]"; chars_received := 5 |}
    /\ invocations (reconstruct acc)
       = [ {| call_id := "call_a"; call_name := "write_file";
              call_arguments := "{}" |} ].
Proof. eexists. split; [reflexivity|]. split; reflexivity. Qed.

Lemma accumulate_slots chunks :
  nonneg_indices (tool_deltas chunks) ->
  exists acc,
    accumulate initial_accum chunks = Ok acc
    /\ forall (i : nat) (s : Slot), tool_calls_data acc !! i = Some s ->
         s = apply_deltas empty_slot (for_slot i (tool_deltas chunks)).
Proof.
  intros Hnn.
  pose proof (accumulate_deltas chunks initial_accum) as Hacc.
  rewrite process_tc_deltas_from_nil in Hacc by done.
  destruct (accumulate initial_accum chunks) as [acc|e]; [|done].
  exists acc. split; [done|].
  injection Hacc as Hdata. intros i s. rewrite <- Hdata.
  rewrite list_lookup_fmap. intros Hs.
  destruct (seq 0 (slot_count (tool_deltas chunks)) !! i) as [j|] eqn:Hj;
    [|done].
  apply lookup_seq in Hj as [-> _]. simpl in Hs. by injection Hs as <-.
Qed.




(** ** The dispatcher *)

Lemma dispatch_unknown_tool env iteration position tool_call st :
  tool_map env !! call_name tool_call = None ->
  dispatch env iteration position tool_call st
  = (Ok tt,
     push st (tool_message (call_id tool_call) (call_name tool_call)
                ("Error: Unknown tool '" +:+ call_name tool_call +:+ "'"))).
Proof.
  intros Hunknown. unfold dispatch, run_tool. rewrite Hunknown.
  by unfold_monad.
Qed.





Lemma dispatch_all_app env iteration calls1 : forall position calls2 st,
  dispatch_all env iteration position (calls1 ++ calls2) st
  = match dispatch_all env iteration position calls1 st with
    | (Ok _, st') =>
        dispatch_all env iteration (position + length calls1)%nat calls2 st'
    | (Raise e, st') => (Raise e, st')
    end.
Proof.
  induction calls1 as [|c calls1 IH]; intros position calls2 st.
  - simpl. unfold ret. by rewrite Nat.add_0_r.
  - simpl. unfold bind.
    destruct (dispatch env iteration position c st) as [[[]|e] st1]; [|done].
    rewrite IH. by replace (S position + length calls1)%nat
      with (position + S (length calls1))%nat by lia.
Qed.




(** ** The agent loop *)

Lemma iteration_body_split env iteration st :
  iteration_body env iteration st
  = match before_model_call env iteration st with
    | (Ok _, st') => guarded_turn env iteration st'
    | (Raise e, st') => (Raise e, st')
    end.
Proof.
  unfold iteration_body, before_model_call, bind.
  destruct (budget_phase env iteration st) as [[n|e] st1]; [|done].
  by destruct (backup_phase env iteration st1) as [[[]|e] st2].
Qed.

Lemma for_loop_cons env iteration rest last st :
  for_loop env (iteration :: rest) last st
  = match iteration_body env iteration st with
    | (Ok Next, st') => for_loop env rest iteration st'
    | (Ok Break, st') => (Ok (Broke, iteration), st')
    | (Raise e, st') => (Raise e, st')
    end.
Proof.
  simpl. unfold bind.
  by destruct (iteration_body env iteration st) as [[[]|e] st'].
Qed.

Lemma process_tc_delta_raises data d e :
  process_tc_delta data d = Raise e -> e = index_error.
Proof.
  unfold process_tc_delta.
  destruct (py_index _ _) as [k|]; [|by intros [= <-]].
  destruct (_ !! k); [done|by intros [= <-]].
Qed.

Lemma process_tc_deltas_raises ds : forall data e,
  process_tc_deltas data ds = Raise e -> e = index_error.
Proof.
  induction ds as [|d ds IH]; intros data e; [done|].
  simpl. destruct (process_tc_delta data d) as [data'|e'] eqn:Hd.
  - apply IH.
  - intros [= <-]. by eapply process_tc_delta_raises.
Qed.

(** The accumulator raises nothing but [IndexError]. *)
Lemma accumulate_raises chunks : forall st e,
  accumulate st chunks = Raise e -> e = index_error.
Proof.
  induction chunks as [|c chunks IH]; intros st e; [done|].
  simpl. destruct (process_chunk st c) as [st'|e'] eqn:Hc.
  - apply IH.
  - intros [= <-]. unfold process_chunk in Hc.
    destruct (choices c) as [|ch ?]; [done|].
    destruct (process_tc_deltas _ _) as [?|e''] eqn:Hds; [done|].
    injection Hc as <-. by eapply process_tc_deltas_raises.
Qed.

(** C8. When the streaming call of an iteration ends with an exception of
    class [Exception] (at [create] or while the chunks are read), the
    [try] statement ends by [continue] and leaves the store and the
    compressor log as they were when the call was issued: no Turn is
    appended. The loop goes on with the iterations that remain. *)
Theorem stream_error_abandons_iteration (env : Env) (iteration : nat)
    (st : State) (msg : string) :
  sr_failure (chat_completions_create env iteration (messages st))
  = Some (PyException msg) ->
  guarded_turn env iteration st = (Ok Next, st)
  /\ forall (st0 : State) (rest : list nat) (last : nat),
       before_model_call env iteration st0 = (Ok tt, st) ->
       iteration_body env iteration st0 = (Ok Next, st)
       /\ for_loop env (iteration :: rest) last st0
          = for_loop env rest iteration st.
Proof.
  intros Hfail.
  assert (Hturn : guarded_turn env iteration st = (Ok Next, st)).
  { unfold guarded_turn, model_turn, call_model. unfold_monad.
    destruct (accumulate initial_accum _) as [acc|e] eqn:Hacc.
    - by rewrite Hfail.
    - by rewrite (accumulate_raises _ _ _ Hacc). }
  split; [done|].
  intros st0 rest last Hbefore.
  assert (Hbody : iteration_body env iteration st0 = (Ok Next, st))
    by (by rewrite iteration_body_split, Hbefore).
  split; [done|]. by rewrite for_loop_cons, Hbody.
Qed.

Lemma stream_error_abandons_iteration_witness :
  sr_failure (chat_completions_create offline_env 1 (messages start_state))
  = Some (PyException "connection reset")
  /\ guarded_turn offline_env 1 start_state = (Ok Next, start_state)
  /\ iteration_body offline_env 1 start_state = (Ok Next, start_state).
Proof.
  split; [reflexivity|].
  destruct (stream_error_abandons_iteration offline_env 1 start_state
              "connection reset" eq_refl) as [Hturn Hloop].
  split; [exact Hturn|].
  destruct (Hloop start_state [] 0%nat eq_refl) as [Hbody _].
  exact Hbody.
Defined.

Lemma guarded_turn_without_invocations env iteration st acc :
  accumulate initial_accum
    (sr_chunks (chat_completions_create env iteration (messages st)))
  = Ok acc ->
  sr_failure (chat_completions_create env iteration (messages st)) = None ->
  invocations (reconstruct acc) = [] ->
  guarded_turn env iteration st
  = (Ok Break, push st (convert_message_for_api (reconstruct acc))).
Proof.
  intros Hacc Hend Hnone.
  unfold guarded_turn, model_turn, call_model. unfold_monad.
  by rewrite Hacc, Hend, Hnone.
Qed.

Lemma content_only_accumulates chunks :
  tool_deltas chunks = [] ->
  exists acc,
    accumulate initial_accum chunks = Ok acc
    /\ invocations (reconstruct acc) = [].
Proof.
  intros Hnone.
  assert (Hnn : nonneg_indices (tool_deltas chunks))
    by (rewrite Hnone; constructor).
  destruct (accumulate_invocations chunks Hnn) as (acc & Hacc & Hinv).
  exists acc. split; [done|]. by rewrite Hinv, Hnone.
Qed.

Lemma budget_phase_below_threshold env iteration st n :
  estimate_token_count env iteration 0 (messages st) = Ok n ->
  n < COMPRESSION_THRESHOLD ->
  budget_phase env iteration st = (Ok n, st).
Proof.
  intros Hest Hlt. unfold budget_phase. unfold_monad. rewrite Hest.
  destruct (Z.leb_spec COMPRESSION_THRESHOLD n); [lia|done].
Qed.

(** C4. A finalized message without a surviving tool invocation ends the
    loop in the iteration that received it: the [try] statement appends the
    assistant Turn and breaks. In particular, from the two-entry store of a
    fresh start, with a token count below the compression threshold and a
    stream that delivers no tool-call delta, the loop breaks in iteration 1,
    [main] returns, and the store has exactly three entries. *)
Theorem no_invocation_ends_the_loop (env : Env) :
  (forall (iteration : nat) (st st0 : State) (acc : Accum)
          (rest : list nat) (last : nat),
     before_model_call env iteration st0 = (Ok tt, st) ->
     accumulate initial_accum
       (sr_chunks (chat_completions_create env iteration (messages st)))
     = Ok acc ->
     sr_failure (chat_completions_create env iteration (messages st)) = None ->
     invocations (reconstruct acc) = [] ->
     for_loop env (iteration :: rest) last st0
     = (Ok (Broke, iteration),
        push st (convert_message_for_api (reconstruct acc))))
  /\ (forall (system_prompt user_prompt : string) (chunks : list Chunk)
             (n : Z),
        let st0 := {| messages :=
                        initial_messages system_prompt user_prompt false;
                      compress_log := [] |} in
        estimate_token_count env 1 0 (messages st0) = Ok n ->
        n < COMPRESSION_THRESHOLD ->
        chat_completions_create env 1 (messages st0) = completed chunks ->
        tool_deltas chunks = [] ->
        exists assistant : Turn,
          agent_loop env st0 = (Ok (Broke, 1%nat), push st0 assistant)
          /\ main env system_prompt user_prompt false
             = (Ok tt, push st0 assistant)
          /\ length (messages (push st0 assistant)) = 3%nat
          /\ t_tool_calls assistant = None).
Proof.
  split.
  - intros iteration st st0 acc rest last Hbefore Hacc Hend Hnone.
    rewrite for_loop_cons, iteration_body_split, Hbefore.
    by rewrite (guarded_turn_without_invocations _ _ _ acc).
  - intros system_prompt user_prompt chunks n st0 Hest Hlt Hstream Hnone.
    destruct (content_only_accumulates chunks Hnone) as (acc & Hacc & Hinv).
    exists (convert_message_for_api (reconstruct acc)).
    assert (Hbefore : before_model_call env 1 st0 = (Ok tt, st0)).
    { unfold before_model_call, bind.
      by rewrite (budget_phase_below_threshold env 1 st0 n). }
    assert (Hloop : agent_loop env st0
              = (Ok (Broke, 1%nat),
                 push st0 (convert_message_for_api (reconstruct acc)))).
    { unfold agent_loop.
      change (seq 1 MAX_ITERATIONS) with (1%nat :: seq 2 299).
      rewrite for_loop_cons, iteration_body_split, Hbefore.
      rewrite (guarded_turn_without_invocations _ _ _ acc); [done| | |done].
      - by rewrite Hstream.
      - by rewrite Hstream. }
    split; [done|]. split; [|split].
    + unfold main, run_agent, bind. fold st0. by rewrite Hloop.
    + done.
    + unfold convert_message_for_api. simpl.
      rewrite reconstruct_invocations in Hinv.
      destruct (tool_calls_data acc) as [|s data]; [done|].
      simpl in *. by rewrite Hinv.
Qed.

Lemma no_invocation_ends_the_loop_witness :
  estimate_token_count haiku_env 1 0 (messages start_state) = Ok 1200
  /\ 1200 < COMPRESSION_THRESHOLD
  /\ tool_deltas [content_chunk "An old silent pond"] = []
  /\ exists assistant : Turn,
       agent_loop haiku_env start_state
       = (Ok (Broke, 1%nat), push start_state assistant)
       /\ length (messages (push start_state assistant)) = 3%nat.
Proof.
  split; [reflexivity|]. split; [reflexivity|]. split; [reflexivity|].
  destruct (no_invocation_ends_the_loop haiku_env) as [_ Hscenario].
  destruct (Hscenario "You are a writer." "write a haiku"
              [content_chunk "An old silent pond"] 1200
              eq_refl eq_refl eq_refl eq_refl)
    as (assistant & Hloop & _ & Hlen & _).
  exists assistant. split; [exact Hloop|exact Hlen].
Defined.

(** The scenario, evaluated. *)
Example haiku_run :
  main haiku_env "You are a writer." "write a haiku" false
  = (Ok tt,
     push start_state
       {| t_role := "assistant"; t_content := Some "An old silent pond";
          t_reasoning_content := None; t_tool_calls := None;
          t_tool_call_id := None; t_name := None |}).
Proof. reflexivity. Qed.

(** C7, as the code has it. When the token count that opens an iteration
    raises an exception of class [Exception], the count is taken to be 0,
    the compressor is not called and the store is left as it is. When the
    count is over the threshold, the compressor hands back a store, and the
    recount raises, the count is taken to be 0 as well, with the store
    already replaced. In both cases the iteration goes on with the backup
    check and the model call. *)
Theorem estimation_failure_counts_zero (env : Env) (iteration : nat)
    (st : State) (msg : string) :
  (estimate_token_count env iteration 0 (messages st)
   = Raise (PyException msg) ->
   budget_phase env iteration st = (Ok 0, st)
   /\ iteration_body env iteration st
      = (do _ <- backup_phase env iteration; guarded_turn env iteration) st)
  /\ (forall (n : Z) (result : CompressionResult) (ms : list Turn)
             (text : string),
        estimate_token_count env iteration 0 (messages st) = Ok n ->
        COMPRESSION_THRESHOLD <= n ->
        compress_context_impl env AtThreshold iteration (messages st) 10
        = Ok result ->
        compressed_messages result = Some ms ->
        cr_message result = Some text ->
        estimate_token_count env iteration 1 ms = Raise (PyException msg) ->
        let st' := {| messages := ms;
                      compress_log :=
                        compress_log (logged st AtThreshold iteration 10) |} in
        budget_phase env iteration st = (Ok 0, st')
        /\ iteration_body env iteration st
           = (do _ <- backup_phase env iteration; guarded_turn env iteration)
               st').
Proof.
  split.
  - intros Hest.
    assert (Hbudget : budget_phase env iteration st = (Ok 0, st)).
    { unfold budget_phase. unfold_monad. by rewrite Hest. }
    split; [done|].
    unfold iteration_body. unfold bind at 1. by rewrite Hbudget.
  - intros n result ms text Hest Hover Hcompress Hms Htext Hrecount st'.
    assert (Hbudget : budget_phase env iteration st = (Ok 0, st')).
    { unfold budget_phase. unfold_monad. rewrite Hest.
      destruct (Z.leb_spec COMPRESSION_THRESHOLD n); [|lia].
      simpl. rewrite Hcompress, Hms, Htext. simpl. by rewrite Hrecount. }
    split; [done|].
    unfold iteration_body. unfold bind at 1. by rewrite Hbudget.
Qed.

Lemma estimation_failure_counts_zero_witness :
  estimate_token_count no_estimate_env 1 0 (messages start_state)
  = Raise (PyException "estimator unreachable")
  /\ budget_phase no_estimate_env 1 start_state = (Ok 0, start_state)
  /\ estimate_token_count recount_fails_env 1 0 (messages start_state)
     = Ok 190000
  /\ COMPRESSION_THRESHOLD <= 190000
  /\ fst (budget_phase recount_fails_env 1 start_state) = Ok 0.
Proof.
  split; [reflexivity|].
  destruct (estimation_failure_counts_zero no_estimate_env 1 start_state
              "estimator unreachable") as [Hfirst _].
  destruct (Hfirst eq_refl) as [Hbudget _].
  split; [exact Hbudget|]. split; [reflexivity|].
  split; [unfold COMPRESSION_THRESHOLD; lia|].
  destruct (estimation_failure_counts_zero recount_fails_env 1 start_state
              "estimator unreachable") as [_ Hrecount].
  assert (Hover : COMPRESSION_THRESHOLD <= 190000)
    by (unfold COMPRESSION_THRESHOLD; lia).
  destruct (Hrecount 190000
              {| compressed_messages :=
                   Some [plain_turn "system" "You are a writer."; summary_turn];
                 cr_message := Some "Compressed 1 message";
                 tokens_saved := Some 100000;
                 summary_file := Some ".context_summary.md" |}
              [plain_turn "system" "You are a writer."; summary_turn]
              "Compressed 1 message"
              eq_refl Hover eq_refl eq_refl eq_refl eq_refl)
    as [Hbudget' _].
  rewrite Hbudget'. reflexivity.
Defined.

(** C7, as the claim has it, fails for the recount: the estimation raises
    in iteration 1, the count is 0 and the iteration goes on, yet the
    compression of that iteration was not skipped: the compressor was
    called and its store replaced the one the iteration started with. *)
Lemma recount_failure_after_compression :
  estimate_token_count recount_fails_env 1 1
    [plain_turn "system" "You are a writer."; summary_turn]
  = Raise (PyException "estimator unreachable")
  /\ budget_phase recount_fails_env 1 start_state
     = (Ok 0,
        {| messages := [plain_turn "system" "You are a writer."; summary_turn];
           compress_log :=
             [ {| cc_site := AtThreshold; cc_iteration := 1;
                  cc_messages := messages start_state;
                  cc_keep_recent := 10 |} ] |})
  /\ snd (budget_phase recount_fails_env 1 start_state) <> start_state.
Proof.
  split; [reflexivity|]. split; [reflexivity|]. discriminate.
Qed.

(** An interrupt that reaches the [try] statement is handled: one call to
    the compressor with [keep_recent] the length of the store, whatever
    that call does, then [sys.exit(0)]. *)
Lemma interrupt_in_model_turn_saves_and_exits env iteration st st1 :
  model_turn env iteration st = (Raise KeyboardInterrupt, st1) ->
  guarded_turn env iteration st
  = (Raise (SystemExit 0),
     logged st1 AtInterrupt iteration (length (messages st1))).
Proof.
  intros Hturn. unfold guarded_turn. rewrite Hturn.
  unfold on_interrupt, catch_all. unfold_monad. simpl.
  by destruct (compress_context_impl env AtInterrupt iteration
                 (messages st1) (length (messages st1))).
Qed.

(** An interrupt that arrives before the [try] statement is not handled:
    it leaves the body of the loop, and with it the loop. *)
Lemma interrupt_during_estimation env iteration st :
  estimate_token_count env iteration 0 (messages st) = Raise KeyboardInterrupt ->
  iteration_body env iteration st = (Raise KeyboardInterrupt, st).
Proof.
  intros Hest. unfold iteration_body, budget_phase. unfold_monad.
  by rewrite Hest.
Qed.

Lemma interrupt_during_backup env iteration st n st1 :
  budget_phase env iteration st = (Ok n, st1) ->
  (iteration mod BACKUP_INTERVAL)%nat = 0%nat ->
  compress_context_impl env AtBackup iteration (messages st1)
    (length (messages st1)) = Raise KeyboardInterrupt ->
  iteration_body env iteration st
  = (Raise KeyboardInterrupt,
     logged st1 AtBackup iteration (length (messages st1))).
Proof.
  intros Hbudget Hmod Hbackup. unfold iteration_body. unfold bind at 1.
  rewrite Hbudget. unfold backup_phase. rewrite Hmod. simpl.
  unfold_monad. by rewrite Hbackup.
Qed.

(** C9, at the failing input: the interrupt arrives while the token count
    of iteration 1 is being estimated. [KeyboardInterrupt] leaves [main]:
    the compressor was never called and no [sys.exit(0)] was reached. *)
Theorem interrupt_during_estimation_escapes :
  main interrupted_count_env "You are a writer." "write a haiku" false
  = (Raise KeyboardInterrupt, start_state)
  /\ compress_log
       (snd (main interrupted_count_env "You are a writer." "write a haiku"
               false)) = []
  /\ fst (main interrupted_count_env "You are a writer." "write a haiku"
            false) <> Raise (SystemExit 0).
Proof.
  split; [reflexivity|]. split; [reflexivity|]. discriminate.
Qed.

(** C10. When the loop is left by [break] in iteration [MAX_ITERATIONS],
    the check after the loop still holds: the compressor is called once
    more, at the cap site, with [keep_recent] the length of the store, and
    the store is left as the loop left it. *)
Theorem break_on_last_iteration_runs_cap_path (env : Env) (st0 st : State) :
  agent_loop env st0 = (Ok (Broke, MAX_ITERATIONS), st) ->
  snd (run_agent env st0)
  = logged st AtCap MAX_ITERATIONS (length (messages st))
  /\ (fst (run_agent env st0) = Ok tt
      \/ exists e, is_Exception e = false
                   /\ compress_context_impl env AtCap MAX_ITERATIONS
                        (messages st) (length (messages st)) = Raise e
                   /\ fst (run_agent env st0) = Raise e).
Proof.
  intros Hloop. unfold run_agent, bind. rewrite Hloop. simpl.
  unfold after_loop.
  replace (MAX_ITERATIONS <=? MAX_ITERATIONS)%nat with true
    by (symmetry; apply Nat.leb_refl).
  unfold catch_Exception. unfold_monad. simpl.
  destruct (compress_context_impl env AtCap MAX_ITERATIONS (messages st)
              (length (messages st))) as [r|e] eqn:Hcap.
  - split; [done|by left].
  - destruct (is_Exception e) eqn:He.
    + split; [done|by left].
    + split; [done|]. right. by exists e.
Qed.

Lemma break_on_last_iteration_runs_cap_path_witness :
  let done_state :=
    {| messages :=
         messages start_state
         ++ [ {| t_role := "assistant"; t_content := Some "The end.";
                 t_reasoning_content := None; t_tool_calls := None;
                 t_tool_call_id := None; t_name := None |} ];
       compress_log :=
         (fun iteration =>
            {| cc_site := AtBackup; cc_iteration := iteration;
               cc_messages := messages start_state; cc_keep_recent := 2 |})
         <$> [50; 100; 150; 200; 250; 300]%nat |} in
  agent_loop last_minute_env start_state
  = (Ok (Broke, MAX_ITERATIONS), done_state)
  /\ snd (run_agent last_minute_env start_state)
     = logged done_state AtCap MAX_ITERATIONS 3.
Proof.
  intros done_state.
  assert (Hloop : agent_loop last_minute_env start_state
                  = (Ok (Broke, MAX_ITERATIONS), done_state))
    by (vm_compute; reflexivity).
  split; [exact Hloop|].
  destruct (break_on_last_iteration_runs_cap_path last_minute_env
              start_state done_state Hloop) as [Hcap _].
  exact Hcap.
Defined.

(** ** More on the accumulator *)

Lemma process_chunk_text st c st' :
  process_chunk st c = Ok st' ->
  content_text st' = content_text st +:+ chunk_content c
  /\ reasoning_content st' = reasoning_content st +:+ chunk_reasoning c
  /\ role st' = from_option Some (role st) (chunk_role c).
Proof.
  unfold process_chunk, chunk_content, chunk_reasoning, chunk_role.
  destruct (choices c) as [|ch ?].
  - intros [= <-]. by rewrite !append_empty_r.
  - destruct (process_tc_deltas _ _) as [data'|e]; [|done].
    intros [= <-]. simpl. split; [|split].
    + destruct (truthy (d_content (delta ch))) eqn:Hc; [done|].
      by rewrite (truthy_false_default _ Hc), append_empty_r.
    + destruct (truthy (d_reasoning_content (delta ch))) eqn:Hr; [done|].
      by rewrite (truthy_false_default _ Hr), append_empty_r.
    + destruct (truthy (d_role (delta ch))) eqn:Hrole; [|done].
      by destruct (d_role (delta ch)).
Qed.

Lemma accumulate_text chunks : forall st acc,
  accumulate st chunks = Ok acc ->
  content_text acc
  = content_text st +:+ concat_strings (chunk_content <$> chunks)
  /\ reasoning_content acc
     = reasoning_content st +:+ concat_strings (chunk_reasoning <$> chunks)
  /\ role acc = from_option Some (role st) (last (omap chunk_role chunks)).
Proof.
  induction chunks as [|c chunks IH]; intros st acc.
  - intros [= <-]. simpl. by rewrite !append_empty_r.
  - simpl. destruct (process_chunk st c) as [st1|e] eqn:Hc; [|done].
    intros Hacc. destruct (IH _ _ Hacc) as (Hcontent & Hreason & Hrole).
    destruct (process_chunk_text _ _ _ Hc) as (Hc1 & Hr1 & Hrole1).
    rewrite Hcontent, Hreason, Hrole, Hc1, Hr1, Hrole1, !append_assoc.
    split; [done|]. split; [done|].
    change (list_omap _ _ chunk_role chunks) with (omap chunk_role chunks).
    destruct (chunk_role c) as [r|]; simpl; [|done].
    change (list_omap _ _ chunk_role chunks) with (omap chunk_role chunks).
    rewrite last_cons_from_option.
    by destruct (last (omap chunk_role chunks)).
Qed.

Lemma truthy_nonempty_or_None s :
  (if truthy (nonempty_or_None s) then nonempty_or_None s else None)
  = nonempty_or_None s.
Proof.
  unfold nonempty_or_None.
  destruct (String.eqb s EmptyString) eqn:Hs; [done|].
  simpl. by rewrite Hs.
Qed.

Lemma chunk_role_truthy c r : chunk_role c = Some r -> truthy (Some r) = true.
Proof.
  unfold chunk_role. destruct (choices c) as [|ch ?]; [done|].
  destruct (truthy (d_role (delta ch))) eqn:Hr; [|done].
  intros Heq. by rewrite <- Heq.
Qed.

(** X1. The text fields of the assistant Turn. The content is the
    concatenation, in arrival order, of the content fragments of the
    chunks, and the key is absent when that text is empty; the same holds
    for the reasoning; the role is the last non-empty role a chunk
    delivered, and [assistant] when none did. *)
Theorem finalized_text_fields (chunks : list Chunk) (acc : Accum) :
  accumulate initial_accum chunks = Ok acc ->
  t_content (convert_message_for_api (reconstruct acc))
  = nonempty_or_None (concat_strings (chunk_content <$> chunks))
  /\ t_reasoning_content (convert_message_for_api (reconstruct acc))
     = nonempty_or_None (concat_strings (chunk_reasoning <$> chunks))
  /\ t_role (convert_message_for_api (reconstruct acc))
     = default "assistant" (last (omap chunk_role chunks)).
Proof.
  intros Hacc.
  destruct (accumulate_text _ _ _ Hacc) as (Hcontent & Hreason & Hrole).
  simpl in Hcontent, Hreason, Hrole.
  unfold convert_message_for_api, reconstruct. simpl.
  rewrite !truthy_nonempty_or_None, Hcontent, Hreason, Hrole.
  split; [done|]. split; [done|].
  destruct (last (omap chunk_role chunks)) as [r|] eqn:Hlast; [|done].
  apply last_Some_elem_of in Hlast.
  apply list_elem_of_omap in Hlast as (c & _ & Hc).
  pose proof (chunk_role_truthy _ _ Hc) as Htr. simpl in Htr.
  simpl. by rewrite Htr.
Qed.

Lemma finalized_text_fields_witness :
  exists acc,
    accumulate initial_accum
      [content_chunk "An old "; tool_chunk []; content_chunk "silent pond"]
    = Ok acc
    /\ t_content (convert_message_for_api (reconstruct acc))
       = Some "An old silent pond"
    /\ t_reasoning_content (convert_message_for_api (reconstruct acc)) = None.
Proof.
  eexists. split; [reflexivity|].
  destruct (finalized_text_fields
              [content_chunk "An old "; tool_chunk [];
               content_chunk "silent pond"] _ eq_refl)
    as (Hcontent & Hreason & _).
  split; [exact Hcontent|exact Hreason].
Defined.

Lemma string_length_append (a b : string) :
  String.length (a +:+ b) = (String.length a + String.length b)%nat.
Proof.
  induction a as [|x a IH]; [done|].
  change (S (String.length (a +:+ b))
          = S (String.length a + String.length b)).
  by rewrite IH.
Qed.

Lemma update_slot_counts tc d :
  counts_its_arguments tc -> counts_its_arguments (update_slot tc d).
Proof.
  unfold counts_its_arguments, update_slot. intros Htc.
  destruct (tcd_function d) as [f|]; simpl.
  - destruct (truthy (fd_arguments f)); destruct (truthy (fd_name f));
      destruct (truthy (tcd_id d)); simpl; try done;
      rewrite string_length_append; lia.
  - by destruct (truthy (tcd_id d)).
Qed.

(** A property of slots that placeholders have and updates keep holds of
    every slot, whatever the indices of the deltas. *)
Lemma process_tc_delta_keeps (P : Slot -> Prop) data d data' :
  P empty_slot -> (forall tc, P tc -> P (update_slot tc d)) ->
  Forall P data -> process_tc_delta data d = Ok data' -> Forall P data'.
Proof.
  intros Hempty Hupdate Hdata. unfold process_tc_delta.
  assert (Hext : Forall P (extend_slots data (tcd_index d))).
  { unfold extend_slots. apply Forall_app. split; [done|].
    by apply Forall_replicate. }
  destruct (py_index _ _) as [k|]; [|done].
  destruct (_ !! k) as [tc|] eqn:Hk; [|done].
  intros [= <-]. apply Forall_insert; [done|].
  apply Hupdate. by eapply Forall_lookup_1.
Qed.

Lemma process_tc_deltas_keep (P : Slot -> Prop) ds : forall data data',
  P empty_slot -> (forall tc d, P tc -> P (update_slot tc d)) ->
  Forall P data -> process_tc_deltas data ds = Ok data' -> Forall P data'.
Proof.
  induction ds as [|d ds IH]; intros data data' Hempty Hupdate Hdata.
  - by intros [= <-].
  - simpl. destruct (process_tc_delta data d) as [data1|e] eqn:Hd; [|done].
    apply IH; [done|done|].
    eapply process_tc_delta_keeps; [done| |done|done]. intros tc. apply Hupdate.
Qed.

Lemma accumulate_keeps (P : Slot -> Prop) chunks acc :
  P empty_slot -> (forall tc d, P tc -> P (update_slot tc d)) ->
  accumulate initial_accum chunks = Ok acc ->
  Forall P (tool_calls_data acc).
Proof.
  intros Hempty Hupdate Hacc.
  pose proof (accumulate_deltas chunks initial_accum) as Hds.
  rewrite Hacc in Hds.
  eapply process_tc_deltas_keep; [done|done| |done]. constructor.
Qed.

(** X2. Whatever the stream, [chars_received] of every slot is the length of
    the argument string accumulated in the slot. *)
Theorem chars_received_is_argument_length (chunks : list Chunk)
    (acc : Accum) :
  accumulate initial_accum chunks = Ok acc ->
  Forall counts_its_arguments (tool_calls_data acc).
Proof.
  apply accumulate_keeps; [done|]. intros tc d. apply update_slot_counts.
Qed.

Lemma chars_received_is_argument_length_witness :
  exists acc,
    accumulate initial_accum interleaved_stream = Ok acc
    /\ Forall counts_its_arguments (tool_calls_data acc).
Proof.
  eexists. split; [reflexivity|].
  apply (chars_received_is_argument_length interleaved_stream).
  reflexivity.
Defined.

Lemma slot_to_call_id tc c :
  slot_to_call tc = Some c -> call_id c <> EmptyString.
Proof.
  unfold slot_to_call. destruct (truthy (tc_id tc)) eqn:Hid; [|done].
  intros [= <-]. simpl. destruct (tc_id tc) as [i|]; [|done].
  simpl in *. intros ->. done.
Qed.

Lemma nonempty_or_None_not_empty s : nonempty_or_None s <> Some EmptyString.
Proof.
  unfold nonempty_or_None.
  destruct (String.eqb_spec s EmptyString); [done|]. by intros [= ->].
Qed.

Lemma converted_tool_calls acc :
  t_tool_calls (convert_message_for_api (reconstruct acc))
  = match omap slot_to_call (tool_calls_data acc) with
    | [] => None
    | calls => Some calls
    end.
Proof.
  unfold convert_message_for_api, reconstruct.
  cbn [rm_tool_calls t_tool_calls].
  destruct (tool_calls_data acc) as [|s data]; [done|].
  by destruct (omap slot_to_call (s :: data)).
Qed.

(** X3. The assistant Turn built from any state of the accumulator holds no
    falsy value: the role is never empty, the content and the reasoning are
    absent or non-empty, [tool_calls] is absent or a non-empty list, the
    list of the surviving invocations in slot order, and each of them has a
    non-empty id. *)
Theorem assistant_turn_has_no_falsy_value (acc : Accum) :
  no_falsy_value (convert_message_for_api (reconstruct acc))
  /\ forall calls,
       t_tool_calls (convert_message_for_api (reconstruct acc)) = Some calls ->
       calls = omap slot_to_call (tool_calls_data acc)
       /\ Forall (fun c => call_id c <> EmptyString) calls.
Proof.
  split.
  - unfold no_falsy_value. rewrite converted_tool_calls.
    unfold convert_message_for_api, reconstruct.
    cbn [t_role t_content t_reasoning_content t_tool_call_id t_name
         rm_role rm_content rm_reasoning_content].
    rewrite !truthy_nonempty_or_None.
    split; [|split; [|split; [|split; [|split]]]];
      try apply nonempty_or_None_not_empty; try done.
    + destruct (role acc) as [r|]; simpl; [|done].
      destruct (String.eqb_spec r EmptyString); simpl; done.
    + by destruct (omap slot_to_call (tool_calls_data acc)).
  - intros calls. rewrite converted_tool_calls.
    destruct (omap slot_to_call (tool_calls_data acc)) as [|c cs] eqn:Hcalls;
      [done|].
    intros [= <-]. split; [done|].
    apply Forall_forall. intros c' Hin. rewrite <- Hcalls in Hin.
    apply list_elem_of_omap in Hin as (tc & _ & Htc).
    by eapply slot_to_call_id.
Qed.

Lemma nonneg_indicesb_false ds :
  nonneg_indicesb ds = false -> exists d, d ∈ ds /\ tcd_index d < 0.
Proof.
  unfold nonneg_indicesb. induction ds as [|d ds IH]; [done|].
  simpl. destruct (Z.leb_spec 0 (tcd_index d)) as [Hd|Hd]; simpl.
  - intros Hds. destruct (IH Hds) as (d' & Hin & Hneg).
    exists d'. split; [apply elem_of_cons; by right|done].
  - intros _. exists d. split; [apply elem_of_cons; by left|done].
Qed.



(** X5. Chunks without choices leave no trace: dropping them from the stream
    changes nothing of what the accumulator returns. *)
Theorem chunks_without_choices_are_skipped (st : Accum)
    (chunks : list Chunk) :
  accumulate st (filter (fun c => has_choices c) chunks)
  = accumulate st chunks.
Proof.
  revert st. induction chunks as [|c chunks IH]; intros st; [done|].
  rewrite filter_cons. destruct (decide (has_choices c)) as [Hyes|Hno].
  - simpl. destruct (process_chunk st c); [apply IH|done].
  - simpl. unfold process_chunk. unfold has_choices in Hno.
    destruct (choices c) as [|ch rest]; [apply IH|].
    by destruct Hno.
Qed.

Lemma length_omap_le {A B} (f : A -> option B) (l : list A) :
  (length (omap f l) <= length l)%nat.
Proof.
  induction l as [|x l IH]; [done|].
  simpl. destruct (f x); simpl;
    change (list_omap _ _ f l) with (omap f l); lia.
Qed.



(** ** More on the dispatcher *)

Lemma dispatch_not_special env iteration position tool_call st :
  special_cased env tool_call = false ->
  dispatch env iteration position tool_call st
  = match tool_outcome env iteration position tool_call with
    | Ok result =>
        (Ok tt,
         push st (tool_message (call_id tool_call) (call_name tool_call)
                    result))
    | Raise e => (Raise e, st)
    end.
Proof.
  unfold special_cased, dispatch, run_tool, tool_outcome, call_tool.
  destruct (tool_map env !! call_name tool_call) as [tool_func|];
    [|intros _; by unfold_monad].
  intros ->. unfold_monad.
  destruct (parse_arguments env (call_arguments tool_call)) as
    [| | | | |members]; try done.
  all: by destruct (tool_func iteration position members).
Qed.

Lemma dispatch_all_answers env iteration calls : forall position st results,
  Forall (fun tool_call => special_cased env tool_call = false) calls ->
  outcomes env iteration position calls = Ok <$> results ->
  dispatch_all env iteration position calls st
  = (Ok tt,
     {| messages := messages st ++ answer_turns calls results;
        compress_log := compress_log st |}).
Proof.
  induction calls as [|c calls IH]; intros position st results Hplain Hout.
  - destruct results; [|done]. simpl. unfold ret, answer_turns. simpl.
    rewrite app_nil_r. by destruct st.
  - destruct results as [|r results]; [done|].
    apply Forall_cons in Hplain as [Hc Hplain].
    simpl in Hout. injection Hout as Hr Hrest.
    simpl. unfold bind. rewrite (dispatch_not_special _ _ _ _ _ Hc), Hr.
    rewrite (IH _ _ results Hplain Hrest). unfold push, answer_turns. simpl.
    by rewrite <- app_assoc.
Qed.

Lemma answer_turns_ids calls : forall results,
  length results = length calls ->
  omap t_tool_call_id (answer_turns calls results) = call_id <$> calls.
Proof.
  induction calls as [|c calls IH]; intros [|r results] Hlen; try done.
  unfold answer_turns in *. simpl. f_equal. apply IH. simpl in Hlen. lia.
Qed.

Lemma length_outcomes env iteration calls : forall position,
  length (outcomes env iteration position calls) = length calls.
Proof.
  induction calls as [|c calls IH]; intros position; [done|].
  simpl. by rewrite IH.
Qed.



Lemma compress_context_goes_to_the_compressor_aux env iteration position
    tool_call st :
  special_cased env tool_call = true ->
  dispatch env iteration position tool_call st
  = match compress_context_impl env AtToolCall iteration (messages st) 10 with
    | Ok result_data =>
        (Ok tt,
         {| messages :=
              default (messages st) (compressed_messages result_data)
              ++ [tool_message (call_id tool_call) "compress_context"
                    (default "Compression completed"
                             (cr_message result_data))];
            compress_log :=
              compress_log st
              ++ [compress_call AtToolCall iteration (messages st) 10] |})
    | Raise e => (Raise e, logged st AtToolCall iteration 10)
    end.
Proof.
  unfold special_cased, dispatch, run_tool.
  destruct (tool_map env !! call_name tool_call) as [tool_func|]; [|done].
  intros Hname. rewrite Hname. apply String.eqb_eq in Hname as ->.
  unfold_monad. unfold compress_call.
  destruct (compress_context_impl env AtToolCall iteration (messages st) 10)
    as [result_data|e]; [|done].
  by destruct (compressed_messages result_data).
Qed.



(** ** More on the agent loop *)

Lemma budget_phase_state (env : Env) (iteration : nat) (st : State) :
  snd (budget_phase env iteration st)
  = match estimate_token_count env iteration 0 (messages st) with
    | Ok token_count =>
        if COMPRESSION_THRESHOLD <=? token_count
        then
          {| messages :=
               match compress_context_impl env AtThreshold iteration
                       (messages st) 10 with
               | Ok result =>
                   default (messages st) (compressed_messages result)
               | Raise _ => messages st
               end;
             compress_log :=
               compress_log st
               ++ [compress_call AtThreshold iteration (messages st) 10] |}
        else st
    | Raise _ => st
    end.
Proof.
  unfold budget_phase, catch_Exception, compress_call. unfold_monad.
  destruct (estimate_token_count env iteration 0 (messages st)) as [n|e];
    [|by destruct (is_Exception e)].
  destruct (COMPRESSION_THRESHOLD <=? n); [|done]. simpl.
  destruct (compress_context_impl env AtThreshold iteration (messages st) 10)
    as [result|e]; [|by destruct (is_Exception e)].
  destruct (compressed_messages result) as [ms|]; [|done]. simpl.
  destruct (cr_message result); simpl; [|done].
  destruct (estimate_token_count env iteration 1 ms) as [n'|e]; [done|].
  by destruct (is_Exception e).
Qed.


Section Invariants.

Context (env : Env) (R : State -> State -> Prop).
Hypothesis R_refl : forall st, R st st.
Hypothesis R_trans : forall st1 st2 st3, R st1 st2 -> R st2 st3 -> R st1 st3.
Hypothesis R_push : forall st t, R st (push st t).
Hypothesis R_logged : forall st s iteration keep_recent,
  mode_matches_site (compress_call s iteration (messages st) keep_recent) ->
  R st (logged st s iteration keep_recent).
Hypothesis R_replaced : forall st s iteration keep_recent result ms,
  shrinking_site s ->
  compress_context_impl env s iteration (messages st) keep_recent
  = Ok result ->
  compressed_messages result = Some ms ->
  R st {| messages := ms; compress_log := compress_log st |}.

Lemma keeps_bind {A B} (m : M A) (k : A -> M B) :
  keeps R m -> (forall a, keeps R (k a)) -> keeps R (bind m k).
Proof using R_trans.
  intros Hm Hk st. unfold bind. specialize (Hm st).
  destruct (m st) as [[a|e] st1]; [|done].
  eapply R_trans; [exact Hm|apply Hk].
Qed.

Lemma keeps_ret {A} (a : A) : keeps R (ret a).
Proof using R_refl. intros st. apply R_refl. Qed.

Lemma keeps_budget_phase iteration : keeps R (budget_phase env iteration).
Proof using R_refl R_trans R_logged R_replaced.
  intros st. rewrite budget_phase_state.
  destruct (estimate_token_count env iteration 0 (messages st)) as [n|e];
    [|done].
  destruct (COMPRESSION_THRESHOLD <=? n); [|done].
  assert (Hlog : R st (logged st AtThreshold iteration 10))
    by (by apply R_logged).
  destruct (compress_context_impl env AtThreshold iteration (messages st) 10)
    as [result|e] eqn:Hc; [|done].
  destruct (compressed_messages result) as [ms|] eqn:Hms; [|done].
  eapply R_trans; [exact Hlog|].
  apply (R_replaced (logged st AtThreshold iteration 10) AtThreshold
           iteration 10 result ms); [by left|done|done].
Qed.

Lemma keeps_snapshot (s : site) iteration :
  (forall ms, mode_matches_site (compress_call s iteration ms (length ms))) ->
  forall (catches : exn -> bool),
  keeps R (try_except
             (do ms <- get_messages;
              do _ <- call_compress env s iteration (length ms);
              ret tt)
             catches (fun _ => ret tt)).
Proof using R_logged.
  intros Hmode catches st. unfold_monad.
  destruct (compress_context_impl env s iteration (messages st)
              (length (messages st))) as [r|e]; simpl.
  - by apply R_logged.
  - destruct (catches e); by apply R_logged.
Qed.

Lemma keeps_backup_phase iteration : keeps R (backup_phase env iteration).
Proof using R_refl R_logged.
  unfold backup_phase.
  destruct (iteration mod BACKUP_INTERVAL =? 0)%nat eqn:Hmod;
    [|apply keeps_ret].
  apply keeps_snapshot. intros ms. split; [done|].
  by apply Nat.eqb_eq.
Qed.

Lemma keeps_dispatch iteration position tool_call :
  keeps R (dispatch env iteration position tool_call).
Proof using R_refl R_trans R_push R_logged R_replaced.
  intros st.
  destruct (special_cased env tool_call) eqn:Hsp.
  - rewrite compress_context_goes_to_the_compressor_aux by done.
    assert (Hlog : R st (logged st AtToolCall iteration 10))
      by (by apply R_logged).
    destruct (compress_context_impl env AtToolCall iteration (messages st)
                10) as [result|e] eqn:Hc; [|done].
    simpl. eapply R_trans; [exact Hlog|].
    destruct (compressed_messages result) as [ms|] eqn:Hms; simpl.
    + eapply R_trans.
      * apply (R_replaced (logged st AtToolCall iteration 10) AtToolCall
                 iteration 10 result ms); [by right|done|done].
      * apply (R_push {| messages := ms;
                         compress_log :=
                           compress_log (logged st AtToolCall iteration 10)
                      |}).
    + apply (R_push (logged st AtToolCall iteration 10)).
  - rewrite dispatch_not_special by done.
    destruct (tool_outcome env iteration position tool_call); [|done].
    apply R_push.
Qed.

Lemma keeps_dispatch_all iteration calls : forall position,
  keeps R (dispatch_all env iteration position calls).
Proof using R_refl R_trans R_push R_logged R_replaced.
  induction calls as [|c calls IH]; intros position; [apply keeps_ret|].
  simpl. apply keeps_bind; [apply keeps_dispatch|]. intros _. apply IH.
Qed.

Lemma keeps_model_turn iteration : keeps R (model_turn env iteration).
Proof using R_refl R_trans R_push R_logged R_replaced.
  intros st. unfold model_turn, call_model.
  unfold bind at 1 2. unfold get_messages.
  destruct (accumulate initial_accum _) as [acc|e]; [|apply R_refl].
  destruct (sr_failure _) as [e|]; [apply R_refl|].
  unfold ret at 1. unfold bind at 1. unfold append_message at 1.
  eapply R_trans; [apply (R_push st)|].
  destruct (invocations (reconstruct acc)) as [|c calls];
    [apply R_refl|].
  apply (keeps_bind (dispatch_all env iteration 0 (c :: calls))
           (fun _ => ret Next));
    [apply keeps_dispatch_all|intros _; apply keeps_ret].
Qed.

Lemma keeps_guarded_turn iteration : keeps R (guarded_turn env iteration).
Proof using R_refl R_trans R_push R_logged R_replaced.
  intros st. unfold guarded_turn.
  pose proof (keeps_model_turn iteration st) as Hturn.
  destruct (model_turn env iteration st) as [[s|[msg| |c]] st1];
    try done.
  eapply R_trans; [exact Hturn|].
  unfold on_interrupt.
  apply (keeps_bind
           (try_except
              (do ms <- get_messages;
               do _ <- call_compress env AtInterrupt iteration (length ms);
               ret tt) catch_all (fun _ => ret tt))
           (fun _ => raise (SystemExit 0))).
  - by apply keeps_snapshot.
  - intros _ st'. apply R_refl.
Qed.

Lemma keeps_iteration_body iteration :
  keeps R (iteration_body env iteration).
Proof using R_refl R_trans R_push R_logged R_replaced.
  unfold iteration_body.
  apply keeps_bind; [apply keeps_budget_phase|]. intros _.
  apply keeps_bind; [apply keeps_backup_phase|]. intros _.
  apply keeps_guarded_turn.
Qed.

Lemma keeps_for_loop its : forall last, keeps R (for_loop env its last).
Proof using R_refl R_trans R_push R_logged R_replaced.
  induction its as [|iteration its IH]; intros last; [apply keeps_ret|].
  simpl. apply keeps_bind; [apply keeps_iteration_body|].
  intros [|]; [apply IH|apply keeps_ret].
Qed.

Lemma keeps_run_agent : keeps R (run_agent env).
Proof using R_refl R_trans R_push R_logged R_replaced.
  unfold run_agent. apply keeps_bind; [apply keeps_for_loop|].
  intros r. unfold after_loop.
  destruct (MAX_ITERATIONS <=? r.2)%nat; [|apply keeps_ret].
  by apply keeps_snapshot.
Qed.

End Invariants.

Lemma store_extended_run_agent env :
  snapshots_only env -> keeps store_extended (run_agent env).
Proof.
  intros Hsnap. apply keeps_run_agent; unfold store_extended.
  - done.
  - intros st1 st2 st3 H12 H23. by etrans.
  - intros st t. simpl. by apply prefix_app_r.
  - done.
  - intros st s iteration keep_recent result ms Hs Hc Hms.
    by rewrite (Hsnap _ _ _ _ _ Hs Hc) in Hms.
Qed.



(** X11. Every call the run makes to the compressor is in the mode of its
    site: [keep_recent] is 10 at the threshold and for the
    [compress_context] tool, and the length of the store passed for the
    backup, the interrupt and the cap; and a backup happens only in an
    iteration that is a multiple of 50. *)
Theorem compressor_calls_match_their_site (env : Env) (st : State) :
  log_extended_by mode_matches_site st (snd (run_agent env st))
  /\ forall system_prompt user_prompt is_recovery,
       Forall mode_matches_site
         (compress_log
            (snd (main env system_prompt user_prompt is_recovery))).
Proof.
  assert (Hkeeps : keeps (log_extended_by mode_matches_site) (run_agent env)).
  { apply keeps_run_agent; unfold log_extended_by.
    - intros st0. exists []. by rewrite app_nil_r.
    - intros st1 st2 st3 (l1 & H1 & Hl1) (l2 & H2 & Hl2).
      exists (l1 ++ l2)%list. rewrite H2, H1, app_assoc. split; [done|].
      by apply Forall_app.
    - intros st0 t. exists []. simpl. by rewrite app_nil_r.
    - intros st0 s iteration keep_recent Hmode. eexists. split; [done|].
      by constructor.
    - intros st0 s iteration keep_recent result ms _ _ _. exists []. simpl.
      by rewrite app_nil_r. }
  split; [apply Hkeeps|].
  intros system_prompt user_prompt is_recovery.
  destruct (Hkeeps {| messages :=
                        initial_messages system_prompt user_prompt is_recovery;
                      compress_log := [] |}) as (calls & Hlog & Hcalls).
  unfold main. by rewrite Hlog.
Qed.

Lemma no_Exception_try_except {A} (m : M A) (a : A) :
  lets_no_Exception_out (try_except m catch_Exception (fun _ => ret a)).
Proof.
  intros st msg. unfold try_except.
  by destruct (m st) as [[a'|[m0| |c]] st1].
Qed.

Lemma no_Exception_budget_phase env iteration :
  lets_no_Exception_out (budget_phase env iteration).
Proof. unfold budget_phase. apply no_Exception_try_except. Qed.

Lemma no_Exception_backup_phase env iteration :
  lets_no_Exception_out (backup_phase env iteration).
Proof.
  unfold backup_phase.
  destruct (iteration mod BACKUP_INTERVAL =? 0)%nat; [|done].
  apply no_Exception_try_except.
Qed.

Lemma no_Exception_guarded_turn env iteration :
  lets_no_Exception_out (guarded_turn env iteration).
Proof.
  intros st msg.
  destruct (model_turn env iteration st) as [[s|[m| |c]] st1] eqn:Hturn.
  - unfold guarded_turn. by rewrite Hturn.
  - unfold guarded_turn. by rewrite Hturn.
  - by rewrite (interrupt_in_model_turn_saves_and_exits _ _ _ _ Hturn).
  - unfold guarded_turn. by rewrite Hturn.
Qed.

Lemma no_Exception_bind {A B} (m : M A) (k : A -> M B) :
  lets_no_Exception_out m -> (forall a, lets_no_Exception_out (k a)) ->
  lets_no_Exception_out (bind m k).
Proof.
  intros Hm Hk st msg. unfold bind. specialize (Hm st msg).
  destruct (m st) as [[a|e] st1]; [apply Hk|].
  simpl in *. intros [= ->]. by apply Hm.
Qed.

Lemma no_Exception_for_loop env its : forall last,
  lets_no_Exception_out (for_loop env its last).
Proof.
  induction its as [|iteration its IH]; intros last; [done|].
  simpl. apply no_Exception_bind.
  - unfold iteration_body.
    apply no_Exception_bind; [apply no_Exception_budget_phase|]. intros _.
    apply no_Exception_bind; [apply no_Exception_backup_phase|]. intros _.
    apply no_Exception_guarded_turn.
  - intros [|]; [apply IH|done].
Qed.

(** X12. No exception of class [Exception] leaves the loop or the check that
    follows it, whatever the estimator, the compressor, the model call and
    the tools raise: a run ends by a return from [main], by [SystemExit],
    or by [KeyboardInterrupt]. *)
Theorem no_Exception_leaves_the_run (env : Env) (st : State) :
  match fst (run_agent env st) with
  | Ok _ => True
  | Raise e => is_Exception e = false
  end.
Proof.
  assert (Hquiet : lets_no_Exception_out (run_agent env)).
  { unfold run_agent. apply no_Exception_bind.
    - apply no_Exception_for_loop.
    - intros r st0 msg. unfold after_loop.
      destruct (MAX_ITERATIONS <=? r.2)%nat; [|done].
      apply no_Exception_try_except. }
  specialize (Hquiet st).
  destruct (fst (run_agent env st)) as [[]|[msg| |c]]; try done.
  by destruct (Hquiet msg).
Qed.

Lemma for_loop_exit env its : forall previous st x n st',
  for_loop env its previous st = (Ok (x, n), st') ->
  (x = Broke -> n ∈ its)
  /\ (x = Exhausted -> n = default previous (last its)).
Proof.
  induction its as [|iteration its IH]; intros previous st x n st'.
  - simpl. unfold ret. intros [= <- <- <-]. done.
  - rewrite for_loop_cons.
    destruct (iteration_body env iteration st) as [[[|]|e] st1]; [| |done].
    + intros Hrest. destruct (IH _ _ _ _ _ Hrest) as [Hbroke Hexh].
      split.
      * intros Hx. apply elem_of_cons. right. by apply Hbroke.
      * intros Hx. rewrite (Hexh Hx), last_cons.
        by destruct (last its).
    + intros [= <- <- <-]. split; [|done].
      intros _. apply elem_of_cons. by left.
Qed.

(** X13. When the loop is left without an exception, the variable [iteration]
    is between 1 and 300, and it is 300 when the range ran out. The check
    after the loop does nothing when the loop was left before iteration
    300: [main] returns with the state the loop left. When [iteration] is
    300 it calls the compressor once, at the cap site, with the length of
    the store as [keep_recent], and leaves the store alone. *)
Theorem loop_exit_and_cap (env : Env) (st0 st : State) (x : LoopExit)
    (n : nat) :
  agent_loop env st0 = (Ok (x, n), st) ->
  (1 <= n <= MAX_ITERATIONS)%nat
  /\ (x = Exhausted -> n = MAX_ITERATIONS)
  /\ ((n < MAX_ITERATIONS)%nat -> run_agent env st0 = (Ok tt, st))
  /\ (n = MAX_ITERATIONS ->
      snd (run_agent env st0)
      = logged st AtCap MAX_ITERATIONS (length (messages st))).
Proof.
  intros Hloop.
  destruct (for_loop_exit _ _ _ _ _ _ _ Hloop) as [Hbroke Hexh].
  assert (Hlast : x = Exhausted -> n = MAX_ITERATIONS).
  { intros Hx. rewrite (Hexh Hx). by vm_compute. }
  assert (Hrange : (1 <= n <= MAX_ITERATIONS)%nat).
  { destruct x.
    - rewrite (Hlast eq_refl). unfold MAX_ITERATIONS. lia.
    - specialize (Hbroke eq_refl). apply elem_of_seq in Hbroke.
      unfold MAX_ITERATIONS in *. lia. }
  split; [done|]. split; [done|]. split.
  - intros Hlt. unfold run_agent, bind. rewrite Hloop. simpl.
    unfold after_loop.
    destruct (Nat.leb_spec MAX_ITERATIONS n); [lia|done].
  - intros ->. unfold run_agent, bind. rewrite Hloop. simpl.
    unfold after_loop.
    replace (MAX_ITERATIONS <=? MAX_ITERATIONS)%nat with true
      by (symmetry; apply Nat.leb_refl).
    unfold catch_Exception. unfold_monad. simpl.
    destruct (compress_context_impl env AtCap MAX_ITERATIONS (messages st)
                (length (messages st))) as [r|e]; [done|].
    by destruct (is_Exception e).
Qed.

Lemma loop_exit_and_cap_witness :
  exists st,
    agent_loop haiku_env start_state = (Ok (Broke, 1%nat), st)
    /\ run_agent haiku_env start_state = (Ok tt, st).
Proof.
  eexists. split; [reflexivity|].
  destruct (loop_exit_and_cap haiku_env start_state _ Broke 1 eq_refl)
    as (_ & _ & Hdone & _).
  apply Hdone. unfold MAX_ITERATIONS. lia.
Defined.

(** X14. An interrupt that ends the stream is handled by the [try] statement:
    the partial response is dropped (no assistant Turn is appended), the
    compressor is called once with [keep_recent] the length of the store,
    and whatever that call does the iteration, and with it the loop, ends
    with [SystemExit(0)]. *)
Theorem interrupted_stream_saves_and_exits (env : Env) (iteration : nat)
    (st : State) (acc : Accum) :
  accumulate initial_accum
    (sr_chunks (chat_completions_create env iteration (messages st)))
  = Ok acc ->
  sr_failure (chat_completions_create env iteration (messages st))
  = Some KeyboardInterrupt ->
  guarded_turn env iteration st
  = (Raise (SystemExit 0),
     logged st AtInterrupt iteration (length (messages st)))
  /\ forall (st0 : State) (rest : list nat) (last : nat),
       before_model_call env iteration st0 = (Ok tt, st) ->
       for_loop env (iteration :: rest) last st0
       = (Raise (SystemExit 0),
          logged st AtInterrupt iteration (length (messages st))).
Proof.
  intros Hacc Hint.
  assert (Hturn : model_turn env iteration st = (Raise KeyboardInterrupt, st)).
  { unfold model_turn, call_model. unfold_monad. by rewrite Hacc, Hint. }
  pose proof (interrupt_in_model_turn_saves_and_exits _ _ _ _ Hturn) as Hg.
  split; [done|].
  intros st0 rest last Hbefore.
  by rewrite for_loop_cons, iteration_body_split, Hbefore, Hg.
Qed.

Lemma interrupted_stream_saves_and_exits_witness :
  run_agent interrupted_stream_env start_state
  = (Raise (SystemExit 0), logged start_state AtInterrupt 1 2).
Proof.
  destruct (interrupted_stream_saves_and_exits interrupted_stream_env 1
              start_state _ eq_refl eq_refl) as [_ Hloop].
  unfold run_agent, agent_loop, bind.
  change (seq 1 MAX_ITERATIONS) with (1%nat :: seq 2 299).
  by rewrite (Hloop start_state (seq 2 299) 0%nat eq_refl).
Defined.

(** ** Start-up *)

Lemma get_user_input_cases t args p r :
  get_user_input t args = Ok (p, r) ->
  (r = true /\ truthy (args_recover args) = true
   /\ read_file t (default EmptyString (args_recover args)) = Ok p)
  \/ (r = false /\ truthy (args_recover args) = false
      /\ p <> EmptyString).
Proof.
  unfold get_user_input, load_context_from_file.
  destruct (truthy (args_recover args)) eqn:Hrec.
  - destruct (read_file t _) as [content|e]; [|by destruct (is_Exception e)].
    intros [= <- <-]. by left.
  - destruct (truthy (args_prompt args)) eqn:Hprompt.
    + intros [= <- <-]. right. split; [done|]. split; [done|].
      destruct (args_prompt args) as [s|]; [|done]. simpl in *.
      intros ->. done.
    + destruct (input t) as [line|e]; [|done].
      destruct (bool_decide _); [done|].
      destruct (String.eqb_spec (str_strip t line) EmptyString); [done|].
      intros [= <- <-]. by right.
Qed.

(** X15. What [get_user_input] returns: the recovery flag is set exactly when
    [--recover] was given a non-empty path, and then the text is the
    content of that file as read; otherwise the text is a prompt, from the
    command line or typed, and it is never empty. The user Turn the store
    starts with is therefore never empty either. *)
Theorem user_input_is_recovery_or_nonempty_prompt (t : Terminal)
    (args : Args) (p : string) (r : bool) :
  get_user_input t args = Ok (p, r) ->
  (r = truthy (args_recover args))
  /\ (r = true ->
      read_file t (default EmptyString (args_recover args)) = Ok p)
  /\ (r = false -> p <> EmptyString)
  /\ forall system_prompt,
       exists content,
         initial_messages system_prompt p r
         = [plain_turn "system" system_prompt; plain_turn "user" content]
         /\ content <> EmptyString.
Proof.
  intros Hin.
  destruct (get_user_input_cases _ _ _ _ Hin)
    as [(-> & Hrec & Hfile)|(-> & Hrec & Hp)].
  - split; [done|]. split; [done|]. split; [done|].
    intros system_prompt. eexists. split; [reflexivity|]. discriminate.
  - split; [done|]. split; [done|]. split; [done|].
    intros system_prompt. exists p. done.
Qed.

Lemma user_input_is_recovery_or_nonempty_prompt_witness :
  get_user_input (sample_terminal "write a haiku")
    {| args_prompt := None; args_recover := Some EmptyString |}
  = Ok ("write a haiku", false)
  /\ "write a haiku" <> EmptyString.
Proof.
  split; [reflexivity|].
  destruct (user_input_is_recovery_or_nonempty_prompt
              (sample_terminal "write a haiku")
              {| args_prompt := None; args_recover := Some EmptyString |}
              "write a haiku" false eq_refl) as (_ & _ & Hp & _).
  by apply Hp.
Defined.

(** X16. How start-up ends without a prompt. With a non-empty [--recover] path
    the prompt argument and the console are never consulted: a file that
    cannot be read ends the process with status 1. Without arguments, the
    words [quit], [exit] and [q] (after [strip] and [lower]) end it with
    status 0 and an empty line with status 1. An [Exception] leaves
    [get_user_input] only if [input] raises it. *)
Theorem start_up_exit_codes (t : Terminal) (args : Args) :
  (truthy (args_recover args) = true ->
   forall msg,
     read_file t (default EmptyString (args_recover args))
     = Raise (PyException msg) ->
     get_user_input t args = Raise (SystemExit 1))
  /\ (truthy (args_recover args) = false ->
      truthy (args_prompt args) = false ->
      forall line,
        input t = Ok line ->
        (str_lower t (str_strip t line) ∈ ["quit"; "exit"; "q"] ->
         get_user_input t args = Raise (SystemExit 0))
        /\ (str_lower t (str_strip t line) ∉ ["quit"; "exit"; "q"] ->
            str_strip t line = EmptyString ->
            get_user_input t args = Raise (SystemExit 1)))
  /\ (forall msg,
        get_user_input t args = Raise (PyException msg) ->
        input t = Raise (PyException msg)).
Proof.
  unfold get_user_input, load_context_from_file. split; [|split].
  - intros -> msg ->. done.
  - intros -> -> line ->. split.
    + intros Hquit. by rewrite bool_decide_eq_true_2.
    + intros Hnot Hempty. rewrite bool_decide_eq_false_2 by done.
      by rewrite Hempty.
  - intros msg.
    destruct (truthy (args_recover args)).
    + destruct (read_file t _) as [content|e]; [done|].
      by destruct e.
    + destruct (truthy (args_prompt args)); [done|].
      destruct (input t) as [line|e]; [|by intros [= ->]].
      destruct (bool_decide _); [done|].
      by destruct (String.eqb (str_strip t line) EmptyString).
Qed.

Lemma start_up_exit_codes_witness :
  get_user_input (sample_terminal "quit")
    {| args_prompt := Some "write a haiku";
       args_recover := Some "summary.md" |}
  = Raise (SystemExit 1)
  /\ get_user_input (sample_terminal "quit")
       {| args_prompt := None; args_recover := None |}
     = Raise (SystemExit 0).
Proof.
  split.
  - destruct (start_up_exit_codes (sample_terminal "quit")
                {| args_prompt := Some "write a haiku";
                   args_recover := Some "summary.md" |}) as [Hrec _].
    by apply (Hrec eq_refl "No such file or directory").
  - destruct (start_up_exit_codes (sample_terminal "quit")
                {| args_prompt := None; args_recover := None |})
      as (_ & Hconsole & _).
    destruct (Hconsole eq_refl eq_refl "quit" eq_refl) as [Hquit _].
    apply Hquit. apply elem_of_cons. by left.
Defined.
